(** * AddressService: a shallow embedding of [src/address/address.service.ts]

    The service is a thin pipeline over three collaborators: the validation
    service (zod schemas), the contact service's ownership guard and the
    Prisma client's [address] relation.  Each asynchronous method becomes a
    computation over the database that either throws or returns, and that
    records the collaborator calls it makes, in the order it makes them. *)

From stdpp Require Import gmap strings list fin_maps.

Local Open Scope Z_scope.

(** ** Data model *)

(** The Prisma [User]; the service only reads [username]. *)
Module User.
Record t := mk { username : string }.
End User.

(** The Prisma [Address] record, as the client returns it. *)
Module Address.
Record t := mk {
  id : Z;
  street : option string;
  city : option string;
  province : option string;
  country : option string;
  postal_code : option string;
  contact_id : Z
}.
End Address.

(** [CreateAddressRequest]: an absent (undefined) field is [None]. *)
Module CreateAddressRequest.
Record t := mk {
  contact_id : Z;
  street : option string;
  city : option string;
  province : option string;
  country : option string;
  postal_code : option string
}.
End CreateAddressRequest.

Module GetAddressRequest.
Record t := mk { contact_id : Z; address_id : Z }.
End GetAddressRequest.

(** [UpdateAddressRequest]: the service reads the target address from [id]. *)
Module UpdateAddressRequest.
Record t := mk {
  id : Z;
  contact_id : Z;
  street : option string;
  city : option string;
  province : option string;
  country : option string;
  postal_code : option string
}.
End UpdateAddressRequest.

Module RemoveAddressRequest.
Record t := mk { contact_id : Z; address_id : Z }.
End RemoveAddressRequest.

(** [AddressResponse]: the public shape, six fields. *)
Module AddressResponse.
Record t := mk {
  id : Z;
  street : option string;
  city : option string;
  province : option string;
  country : option string;
  postal_code : option string
}.
End AddressResponse.

(** ** The backing store *)

(** The columns of an [address] row other than its primary key: the
    foreign key and the five texts, each optional in storage. *)
Record AddressColumns := mkColumns {
  col_contact_id : Z;
  col_street : option string;
  col_city : option string;
  col_province : option string;
  col_country : option string;
  col_postal_code : option string
}.

(** The database: the [contact] relation reduced to its owner column (the
    username that the contact guard compares), the [address] relation keyed
    by its primary key, and the sequence that assigns that key. *)
Record Database := mkDatabase {
  contacts : gmap Z string;
  addresses : gmap Z AddressColumns;
  address_seq : Z
}.

Definition address_record (k : Z) (c : AddressColumns) : Address.t :=
  Address.mk k (col_street c) (col_city c) (col_province c)
             (col_country c) (col_postal_code c) (col_contact_id c).

(** The counter is ahead of every key in use. *)
Definition seq_fresh (db : Database) : Prop :=
  map_Forall (λ k _, k < address_seq db) (addresses db).

(** ** Exceptions, calls and promises *)

Inductive Exception :=
| ZodError (issues : list string)
| HttpException (message : string) (status : Z)
| PrismaClientError (code : string).

(** The spec's error taxonomy over the exceptions thrown. *)
Definition is_ValidationError (e : Exception) : bool :=
  match e with ZodError _ => true | _ => false end.

Definition is_NotFoundError (e : Exception) : bool :=
  match e with HttpException _ status => bool_decide (status = 404) | _ => false end.

(** The collaborator calls a method can make. *)
Inductive Call :=
| CallLoggerDebug
| CallValidate (schema : string)
| CallCheckContactMustExists (username : string) (contactId : Z)
| CallAddressFindFirst (id contactId : Z)
| CallAddressCreate
| CallAddressUpdate (id : Z)
| CallAddressDelete (id : Z)
| CallAddressFindMany (contactId : Z)
| CallToAddressResponse (id : Z).

Record Outcome (A : Type) := mkOutcome {
  result : Exception + A;
  store : Database;
  calls : list Call
}.
Arguments mkOutcome {A} _ _ _.
Arguments result {A} _.
Arguments store {A} _.
Arguments calls {A} _.

(** An awaited promise: run against the database it starts from. *)
Definition Promise (A : Type) : Type := Database → Outcome A.

Definition resolve {A} (a : A) : Promise A :=
  λ db, mkOutcome (inr a) db [].

Definition throw {A} (e : Exception) : Promise A :=
  λ db, mkOutcome (inl e) db [].

(** [await m] then the continuation: a rejection passes through, with the
    store as [m] left it. *)
Definition await {A B} (m : Promise A) (k : A → Promise B) : Promise B :=
  λ db,
    match m db with
    | mkOutcome (inl e) db' cs => mkOutcome (inl e) db' cs
    | mkOutcome (inr a) db' cs =>
        match k a db' with
        | mkOutcome r db'' cs' => mkOutcome r db'' (cs ++ cs')
        end
    end.

Definition called (c : Call) : Promise unit :=
  λ db, mkOutcome (inr tt) db [c].

Definition read_db : Promise Database :=
  λ db, mkOutcome (inr db) db [].

Definition write_db (db' : Database) : Promise unit :=
  λ _, mkOutcome (inr tt) db' [].

Notation "'let!' x ':=' m 'in' k" := (await m (λ x, k))
  (at level 10, x name, m at level 100, k at level 200).
Notation "m ';;!' k" := (await m (λ _, k))
  (at level 100, k at level 200, right associativity).

Definition succeeded {A} (o : Outcome A) : bool :=
  match result o with inr _ => true | inl _ => false end.

Definition failed_with {A} (p : Exception → bool) (o : Outcome A) : bool :=
  match result o with inl e => p e | inr _ => false end.

(** ** Collaborators *)

(** The limits that the zod schemas of [address.validation.ts] put on a
    number and on the length of a text; that file is not among the sources,
    so the limits are parameters of the development. *)
Class ValidationLimits := {
  number_rule : Z → bool;
  text_max : nat
}.

(** A schema, as [parse] uses it: the issues it raises on a value. *)
Record Schema (T : Type) := mkSchema {
  schema_name : string;
  schema_issues : T → list string
}.
Arguments mkSchema {T} _ _.
Arguments schema_name {T} _.
Arguments schema_issues {T} _.

Module AddressValidation.
Section Schemas.
Context {limits : ValidationLimits}.

(** Modelled from the spec: a number field has the shape the schema
    asks of an identifier. *)
Definition number (field : string) (n : Z) : list string :=
  if number_rule n then [] else [field].

(** Modelled from the spec: a text field is a non-empty string of bounded
    length; [required] says whether it may be absent. *)
Definition text (required : bool) (field : string) (v : option string)
  : list string :=
  match v with
  | None => if required then [field] else []
  | Some s =>
      if bool_decide (1 ≤ String.length s ≤ text_max)%nat then [] else [field]
  end.

(** Modelled from the spec: the CREATE schema of [address.validation.ts]
    (not among the sources): the five textual fields must be non-empty
    strings up to a bounded length when present. *)
Definition CREATE : Schema CreateAddressRequest.t :=
  mkSchema "CREATE" (λ r,
    number "contact_id" (CreateAddressRequest.contact_id r)
    ++ text false "street" (CreateAddressRequest.street r)
    ++ text false "city" (CreateAddressRequest.city r)
    ++ text false "province" (CreateAddressRequest.province r)
    ++ text false "country" (CreateAddressRequest.country r)
    ++ text false "postal_code" (CreateAddressRequest.postal_code r)).

(** Modelled from the spec: the GET schema (not among the sources)
    validates the shape {contact_id, address_id}. *)
Definition GET : Schema GetAddressRequest.t :=
  mkSchema "GET" (λ r,
    number "contact_id" (GetAddressRequest.contact_id r)
    ++ number "address_id" (GetAddressRequest.address_id r)).

(** Modelled from the spec: the UPDATE schema (not among the sources):
    the five textual fields are required fields of the payload, non-empty
    and bounded. *)
Definition UPDATE : Schema UpdateAddressRequest.t :=
  mkSchema "UPDATE" (λ r,
    number "id" (UpdateAddressRequest.id r)
    ++ number "contact_id" (UpdateAddressRequest.contact_id r)
    ++ text true "street" (UpdateAddressRequest.street r)
    ++ text true "city" (UpdateAddressRequest.city r)
    ++ text true "province" (UpdateAddressRequest.province r)
    ++ text true "country" (UpdateAddressRequest.country r)
    ++ text true "postal_code" (UpdateAddressRequest.postal_code r)).

(** Modelled from the spec: the REMOVE schema (not among the sources)
    validates the shape {contact_id, address_id}. *)
Definition REMOVE : Schema RemoveAddressRequest.t :=
  mkSchema "REMOVE" (λ r,
    number "contact_id" (RemoveAddressRequest.contact_id r)
    ++ number "address_id" (RemoveAddressRequest.address_id r)).
End Schemas.
End AddressValidation.

Module ValidationService.
(** Modelled from the spec: [validate] of [common/validation.service.ts]
    (not among the sources) returns the normalized input or fails with a
    validation error that lists the offending fields.  It is synchronous:
    the service assigns its result to a request both with and without
    [await], which is the same for a value that is not a promise. *)
Definition validate {T} (zodType : Schema T) (data : T) : Promise T :=
  called (CallValidate (schema_name zodType)) ;;!
  match schema_issues zodType data with
  | [] => resolve data
  | issues => throw (ZodError issues)
  end.
End ValidationService.

Module ContactService.
(** Modelled from the spec: [checkContactMustExists] of
    [contact/contact.service.ts] (not among the sources) confirms that the
    contact exists and belongs to the owner, and fails with a not-found
    error otherwise. *)
Definition checkContactMustExists (username : string) (contactId : Z)
  : Promise unit :=
  called (CallCheckContactMustExists username contactId) ;;!
  let! db := read_db in
  match contacts db !! contactId with
  | Some owner =>
      if bool_decide (owner = username) then resolve tt
      else throw (HttpException "Contact is not found" 404)
  | None => throw (HttpException "Contact is not found" 404)
  end.
End ContactService.

(** The persistence client, [this.prismaService.address].  The Prisma schema
    and [common/prisma.service.ts] are not among the sources; the operations
    are those the service calls, over the in-memory table.  A failure of the
    store is a [PrismaClientError], which the service does not catch. *)
Module PrismaService.
Definition set_addresses (tbl : gmap Z AddressColumns) (db : Database)
  : Database :=
  mkDatabase (contacts db) tbl (address_seq db).

(** [undefined] in an update's [data] leaves the column as it is. *)
Definition assign (new old : option string) : option string :=
  match new with Some s => Some s | None => old end.

(** Modelled from the spec: [address.create({ data })] persists a new row
    with its contact_id linkage; the id is assigned by the store (the next
    key of the sequence), the foreign key must name a contact and the
    primary key must be free. *)
Definition address_create (data : CreateAddressRequest.t)
  : Promise Address.t :=
  called CallAddressCreate ;;!
  let! db := read_db in
  match contacts db !! CreateAddressRequest.contact_id data with
  | None => throw (PrismaClientError "P2003")
  | Some _ =>
      let k := address_seq db in
      let row := mkColumns (CreateAddressRequest.contact_id data)
                   (CreateAddressRequest.street data)
                   (CreateAddressRequest.city data)
                   (CreateAddressRequest.province data)
                   (CreateAddressRequest.country data)
                   (CreateAddressRequest.postal_code data) in
      match addresses db !! k with
      | Some _ => throw (PrismaClientError "P2002")
      | None =>
          write_db (mkDatabase (contacts db) (<[k := row]> (addresses db)) (k + 1)) ;;!
          resolve (address_record k row)
      end
  end.

(** Modelled from the spec: [address.findFirst({ where: { id, contact_id } })]
    finds the row that has both the given id and the given contact_id. *)
Definition address_findFirst (id contact_id : Z)
  : Promise (option Address.t) :=
  called (CallAddressFindFirst id contact_id) ;;!
  let! db := read_db in
  match addresses db !! id with
  | Some row =>
      if bool_decide (col_contact_id row = contact_id)
      then resolve (Some (address_record id row))
      else resolve None
  | None => resolve None
  end.

(** Modelled from the spec: [address.update({ where: { id }, data })]
    overwrites the columns that [data] gives on the row keyed by [id];
    [data] is the whole update request, so it also assigns the key and the
    foreign key. *)
Definition address_update (id : Z) (data : UpdateAddressRequest.t)
  : Promise Address.t :=
  called (CallAddressUpdate id) ;;!
  let! db := read_db in
  match addresses db !! id with
  | None => throw (PrismaClientError "P2025")
  | Some old =>
      let k := UpdateAddressRequest.id data in
      let row := mkColumns (UpdateAddressRequest.contact_id data)
                   (assign (UpdateAddressRequest.street data) (col_street old))
                   (assign (UpdateAddressRequest.city data) (col_city old))
                   (assign (UpdateAddressRequest.province data) (col_province old))
                   (assign (UpdateAddressRequest.country data) (col_country old))
                   (assign (UpdateAddressRequest.postal_code data) (col_postal_code old)) in
      match contacts db !! UpdateAddressRequest.contact_id data with
      | None => throw (PrismaClientError "P2003")
      | Some _ =>
          match delete id (addresses db) !! k with
          | Some _ => throw (PrismaClientError "P2002")
          | None =>
              write_db (set_addresses (<[k := row]> (delete id (addresses db))) db) ;;!
              resolve (address_record k row)
          end
      end
  end.

(** Modelled from the spec: [address.delete({ where: { id } })] deletes the
    row keyed by [id] and returns the deleted record. *)
Definition address_delete (id : Z) : Promise Address.t :=
  called (CallAddressDelete id) ;;!
  let! db := read_db in
  match addresses db !! id with
  | None => throw (PrismaClientError "P2025")
  | Some row =>
      write_db (set_addresses (delete id (addresses db)) db) ;;!
      resolve (address_record id row)
  end.

(** Modelled from the spec: the rows of a contact, in the order of the
    store. *)
Definition rows_of_contact (contact_id : Z) (tbl : gmap Z AddressColumns)
  : list Address.t :=
  (λ kc, address_record kc.1 kc.2) <$>
    filter (λ kc, col_contact_id kc.2 = contact_id) (map_to_list tbl).

(** Modelled from the spec: [address.findMany({ where: { contact_id } })]
    returns all address rows of the contact. *)
Definition address_findMany (contact_id : Z) : Promise (list Address.t) :=
  called (CallAddressFindMany contact_id) ;;!
  let! db := read_db in
  resolve (rows_of_contact contact_id (addresses db)).
End PrismaService.

(** ** The service *)

Module AddressService.
Section Service.
Context {limits : ValidationLimits}.

Definition toAddressResponse (address : Address.t) : AddressResponse.t :=
  AddressResponse.mk
    (Address.id address)
    (Address.street address)
    (Address.city address)
    (Address.province address)
    (Address.country address)
    (Address.postal_code address).

(** A call of [this.toAddressResponse], recorded. *)
Definition mapped (address : Address.t) : Promise AddressResponse.t :=
  called (CallToAddressResponse (Address.id address)) ;;!
  resolve (toAddressResponse address).

Definition checkAddressMustExists (address_id contactId : Z)
  : Promise Address.t :=
  let! address := PrismaService.address_findFirst address_id contactId in
  match address with
  | None => throw (HttpException "Address is not found" 404)
  | Some address => resolve address
  end.

Definition create (user : User.t) (request : CreateAddressRequest.t)
  : Promise AddressResponse.t :=
  let! createRequest :=
    ValidationService.validate AddressValidation.CREATE request in
  ContactService.checkContactMustExists (User.username user)
    (CreateAddressRequest.contact_id createRequest) ;;!
  let! address := PrismaService.address_create createRequest in
  mapped address.

Definition get (user : User.t) (request : GetAddressRequest.t)
  : Promise AddressResponse.t :=
  let! getRequest :=
    ValidationService.validate AddressValidation.GET request in
  ContactService.checkContactMustExists (User.username user)
    (GetAddressRequest.contact_id getRequest) ;;!
  let! address :=
    checkAddressMustExists (GetAddressRequest.address_id getRequest)
      (GetAddressRequest.contact_id getRequest) in
  mapped address.

Definition update (user : User.t) (request : UpdateAddressRequest.t)
  : Promise AddressResponse.t :=
  called CallLoggerDebug ;;!
  let! updateRequest :=
    ValidationService.validate AddressValidation.UPDATE request in
  ContactService.checkContactMustExists (User.username user)
    (UpdateAddressRequest.contact_id updateRequest) ;;!
  let! address :=
    checkAddressMustExists (UpdateAddressRequest.id updateRequest)
      (UpdateAddressRequest.contact_id updateRequest) in
  let! address :=
    PrismaService.address_update (Address.id address) updateRequest in
  mapped address.

(** The address check reads the ids from [request], the delete from
    [removeRequest], as the source does. *)
Definition remove (user : User.t) (request : RemoveAddressRequest.t)
  : Promise AddressResponse.t :=
  let! removeRequest :=
    ValidationService.validate AddressValidation.REMOVE request in
  ContactService.checkContactMustExists (User.username user)
    (RemoveAddressRequest.contact_id removeRequest) ;;!
  checkAddressMustExists (RemoveAddressRequest.address_id request)
    (RemoveAddressRequest.contact_id request) ;;!
  let! address :=
    PrismaService.address_delete (RemoveAddressRequest.address_id removeRequest) in
  mapped address.

(** [addresses.map((address) => this.toAddressResponse(address))]. *)
Fixpoint mapped_all (addresses : list Address.t)
  : Promise (list AddressResponse.t) :=
  match addresses with
  | [] => resolve []
  | address :: rest =>
      let! r := mapped address in
      let! rs := mapped_all rest in
      resolve (r :: rs)
  end.

Definition list (user : User.t) (contactId : Z)
  : Promise (list AddressResponse.t) :=
  ContactService.checkContactMustExists (User.username user) contactId ;;!
  let! addresses := PrismaService.address_findMany contactId in
  mapped_all addresses.
End Service.
End AddressService.

(** ** Vocabulary of the properties *)

(** The request passes its schema. *)
Definition passes {T} (zodType : Schema T) (data : T) : Prop :=
  schema_issues zodType data = [].

(** The contact exists and belongs to the user. *)
Definition owned_by (db : Database) (username : string) (contactId : Z) : Prop :=
  contacts db !! contactId = Some username.

#[global] Instance owned_by_dec db username contactId :
  Decision (owned_by db username contactId) :=
  decide (contacts db !! contactId = Some username).

#[global] Instance seq_fresh_dec db : Decision (seq_fresh db) :=
  decide (map_Forall (λ k _, k < address_seq db) (addresses db)).

(** An address row has both the given id and the given contact id. *)
Definition in_contact (db : Database) (address_id contactId : Z) : bool :=
  match addresses db !! address_id with
  | Some row => bool_decide (col_contact_id row = contactId)
  | None => false
  end.

(** The five textual fields of a request. *)
Definition create_texts (r : CreateAddressRequest.t) : list (option string) :=
  [CreateAddressRequest.street r; CreateAddressRequest.city r;
   CreateAddressRequest.province r; CreateAddressRequest.country r;
   CreateAddressRequest.postal_code r].

Definition update_texts (r : UpdateAddressRequest.t) : list (option string) :=
  [UpdateAddressRequest.street r; UpdateAddressRequest.city r;
   UpdateAddressRequest.province r; UpdateAddressRequest.country r;
   UpdateAddressRequest.postal_code r].

(** The field is present, non-empty and within the length bound. *)
Definition populated {limits : ValidationLimits} (v : option string) : bool :=
  match v with
  | Some s => bool_decide (1 ≤ String.length s ≤ text_max)%nat
  | None => false
  end.

(** The row and the response that an update request describes. *)
Definition updated_row (r : UpdateAddressRequest.t) : AddressColumns :=
  mkColumns (UpdateAddressRequest.contact_id r)
    (UpdateAddressRequest.street r) (UpdateAddressRequest.city r)
    (UpdateAddressRequest.province r) (UpdateAddressRequest.country r)
    (UpdateAddressRequest.postal_code r).

Definition updated_response (r : UpdateAddressRequest.t) : AddressResponse.t :=
  AddressResponse.mk (UpdateAddressRequest.id r)
    (UpdateAddressRequest.street r) (UpdateAddressRequest.city r)
    (UpdateAddressRequest.province r) (UpdateAddressRequest.country r)
    (UpdateAddressRequest.postal_code r).

(** The spec's projection {id, street, city, province, country,
    postal_code} of a stored address. *)
Definition projection (k : Z) (row : AddressColumns) : AddressResponse.t :=
  AddressResponse.mk k (col_street row) (col_city row) (col_province row)
                     (col_country row) (col_postal_code row).

(** The operation failed with a ValidationError or a NotFoundError. *)
Definition rejected {A} (o : Outcome A) : bool :=
  failed_with (λ e, is_ValidationError e || is_NotFoundError e) o.

(** The store operations that write. *)
Definition is_mutation (c : Call) : bool :=
  match c with
  | CallAddressCreate | CallAddressUpdate _ | CallAddressDelete _ => true
  | _ => false
  end.

(** The store is as it was and no writing operation was called. *)
Definition untouched {A} (db : Database) (o : Outcome A) : Prop :=
  store o = db ∧ Forall (λ c, is_mutation c = false) (calls o).

(** The address guard threw, and the store is as it was. *)
Definition address_not_found {A} (db : Database) (o : Outcome A) : Prop :=
  result o = inl (HttpException "Address is not found" 404)
  ∧ failed_with is_NotFoundError o = true
  ∧ store o = db.

(** The steps of the spec's control flow; the logger is not one of them. *)
Inductive Step :=
| StepValidate | StepContact | StepAddress | StepStore | StepMap.

Definition step_of (c : Call) : option Step :=
  match c with
  | CallLoggerDebug => None
  | CallValidate _ => Some StepValidate
  | CallCheckContactMustExists _ _ => Some StepContact
  | CallAddressFindFirst _ _ => Some StepAddress
  | CallAddressCreate | CallAddressUpdate _ | CallAddressDelete _
  | CallAddressFindMany _ => Some StepStore
  | CallToAddressResponse _ => Some StepMap
  end.

Definition steps (cs : list Call) : list Step := omap step_of cs.

(** The first step taken is the validation of the request. *)
Definition validates_first (tr : list Step) : bool :=
  match tr with StepValidate :: _ => true | _ => false end.

(** ** A scenario: the fixtures of [test/address.spec.ts] *)

Definition sample_limits : ValidationLimits :=
  {| number_rule := λ n, bool_decide (1 ≤ n); text_max := 255 |}.

Definition sample_user : User.t := User.mk "test".

Definition sample_row : AddressColumns :=
  mkColumns 1 (Some "street test") (Some "city test") (Some "province test")
            (Some "country test") (Some "1111").

(** Contact 1 belongs to "test" and contact 2 to "other"; address 5 is
    under contact 1 and address 6 under contact 2. *)
Definition sample_db : Database :=
  mkDatabase (<[1 := "test"]> (<[2 := "other"]> ∅))
             (<[5 := sample_row]>
                (<[6 := mkColumns 2 (Some "elsewhere") None None (Some "x") (Some "2")]> ∅))
             7.

Definition sample_create : CreateAddressRequest.t :=
  CreateAddressRequest.mk 1 (Some "street test") (Some "city test")
    (Some "province test") (Some "country test") (Some "1111").

Definition sample_update : UpdateAddressRequest.t :=
  UpdateAddressRequest.mk 5 1 (Some "street updated") (Some "city updated")
    (Some "province updated") (Some "country updated") (Some "2222").

(** The invalid payload of the tests: every text is empty. *)
Definition empty_create : CreateAddressRequest.t :=
  CreateAddressRequest.mk 1 (Some "") (Some "") (Some "") (Some "") (Some "").

Definition empty_update : UpdateAddressRequest.t :=
  UpdateAddressRequest.mk 5 1 (Some "") (Some "") (Some "") (Some "") (Some "").

(** ** Vocabulary of the properties of sequences of calls *)

(** Every address row names a contact of the [contact] relation. *)
Definition referential (db : Database) : Prop :=
  map_Forall (λ _ row, is_Some (contacts db !! col_contact_id row))
             (addresses db).

#[global] Instance referential_dec db : Decision (referential db) :=
  decide (map_Forall (λ _ row, is_Some (contacts db !! col_contact_id row))
                     (addresses db)).

(** One call of a method of the service, by any user with any request:
    from the store it starts on to the store it leaves. *)
Inductive service_call {limits : ValidationLimits} (db : Database)
  : Database → Prop :=
| call_create user r :
    service_call db (store (AddressService.create user r db))
| call_get user r :
    service_call db (store (AddressService.get user r db))
| call_update user r :
    service_call db (store (AddressService.update user r db))
| call_remove user r :
    service_call db (store (AddressService.remove user r db))
| call_list user contactId :
    service_call db (store (AddressService.list user contactId db)).


(** ** Running the service *)

Ltac run_service :=
  cbv [AddressService.create AddressService.get AddressService.update
       AddressService.remove AddressService.list AddressService.mapped
       AddressService.checkAddressMustExists
       ValidationService.validate ContactService.checkContactMustExists
       PrismaService.address_create PrismaService.address_findFirst
       PrismaService.address_update PrismaService.address_delete
       PrismaService.address_findMany PrismaService.set_addresses
       AddressService.toAddressResponse address_record
       Address.id Address.street Address.city Address.province
       Address.country Address.postal_code Address.contact_id
       await called read_db write_db resolve throw
       result store calls succeeded failed_with] in *.

(** Case analysis on a scrutinee that is not itself a case analysis. *)
Ltac case_scrutinee :=
  match goal with
  | |- context [match ?x with _ => _ end] =>
      lazymatch x with
      | context [match _ with _ => _ end] => fail
      | _ => destruct x eqn:?
      end
  | H : context [match ?x with _ => _ end] |- _ =>
      lazymatch x with
      | context [match _ with _ => _ end] => fail
      | _ => destruct x eqn:?
      end
  end.

Ltac decided :=
  repeat match goal with
  | H : bool_decide _ = true |- _ => apply bool_decide_eq_true_1 in H
  | H : bool_decide _ = false |- _ => apply bool_decide_eq_false_1 in H
  end.

Ltac service_cases :=
  run_service;
  repeat (case_scrutinee; cbv beta iota in *; simplify_eq);
  decided; simplify_eq.

(** A hypothesis on a closed term, decided by evaluation. *)
Ltac evaluated := first [ vm_compute; reflexivity
                        | apply (bool_decide_unpack _); vm_compute; exact I ].

(** A negated hypothesis on a closed term, refuted by evaluation. *)
Ltac refuted :=
  let H := fresh in intros H; vm_compute in H; discriminate H.

(** ** The schemas *)

Section Validation.
Context {limits : ValidationLimits}.

Lemma text_empty required field :
  AddressValidation.text required field (Some "") = [field].
Proof.
  unfold AddressValidation.text. rewrite bool_decide_eq_false_2; [done|].
  simpl. lia.
Qed.

Lemma text_populated required field v :
  populated v = true → AddressValidation.text required field v = [].
Proof.
  destruct v as [s|]; [|done]. intros Hs. cbn in Hs. decided.
  unfold AddressValidation.text. by rewrite bool_decide_eq_true_2.
Qed.

Lemma text_required_inv field v :
  AddressValidation.text true field v = [] → populated v = true.
Proof.
  unfold AddressValidation.text, populated. destruct v as [s|]; [|done].
  by case_bool_decide.
Qed.

Lemma number_ok field n :
  number_rule n = true → AddressValidation.number field n = [].
Proof. unfold AddressValidation.number. by intros ->. Qed.

Lemma CREATE_rejects_empty r :
  Some ""%string ∈ create_texts r → ¬ passes AddressValidation.CREATE r.
Proof.
  unfold passes, create_texts. intros Hin Hnil. cbn in Hnil.
  repeat (apply app_eq_nil in Hnil as [? Hnil]).
  set_unfold in Hin.
  destruct Hin as [E|[E|[E|[E|[E|[]]]]]]; rewrite <- E, text_empty in *; done.
Qed.

Lemma UPDATE_rejects_empty r :
  Some ""%string ∈ update_texts r → ¬ passes AddressValidation.UPDATE r.
Proof.
  unfold passes, update_texts. intros Hin Hnil. cbn in Hnil.
  repeat (apply app_eq_nil in Hnil as [? Hnil]).
  set_unfold in Hin.
  destruct Hin as [E|[E|[E|[E|[E|[]]]]]]; rewrite <- E, text_empty in *; done.
Qed.

Lemma CREATE_passes r :
  number_rule (CreateAddressRequest.contact_id r) = true →
  forallb populated (create_texts r) = true →
  passes AddressValidation.CREATE r.
Proof.
  unfold passes, create_texts. intros Hn Hv. cbn in *.
  repeat (apply andb_prop in Hv as [? Hv]).
  rewrite number_ok by done. by rewrite !text_populated.
Qed.

Lemma UPDATE_passes_inv r :
  passes AddressValidation.UPDATE r →
  forallb populated (update_texts r) = true.
Proof.
  unfold passes, update_texts. cbn. intros Hnil.
  apply app_eq_nil in Hnil as [_ Hnil].
  apply app_eq_nil in Hnil as [_ Hnil].
  apply app_eq_nil in Hnil as [->%text_required_inv Hnil].
  apply app_eq_nil in Hnil as [->%text_required_inv Hnil].
  apply app_eq_nil in Hnil as [->%text_required_inv Hnil].
  apply app_eq_nil in Hnil as [->%text_required_inv ->%text_required_inv].
  done.
Qed.

Lemma assign_populated v old :
  populated v = true → PrismaService.assign v old = v.
Proof. by destruct v. Qed.

End Validation.

(** ** Equations of the service *)

Lemma seq_fresh_free db : seq_fresh db → addresses db !! address_seq db = None.
Proof.
  intros Hf. destruct (addresses db !! address_seq db) eqn:E; [|done].
  apply Hf in E. lia.
Qed.

Lemma mapped_all_run (rows : list Address.t) (db : Database) :
  AddressService.mapped_all rows db
  = mkOutcome (inr (AddressService.toAddressResponse <$> rows)) db
      ((λ a, CallToAddressResponse (Address.id a)) <$> rows).
Proof.
  induction rows as [|a rows IH]; [done|].
  cbn [AddressService.mapped_all]. run_service. rewrite IH. cbn.
  by rewrite app_nil_r.
Qed.

Lemma list_run (user : User.t) (contactId : Z) (db : Database) :
  AddressService.list user contactId db
  = let guard := CallCheckContactMustExists (User.username user) contactId in
    if bool_decide (owned_by db (User.username user) contactId) then
      let rows := PrismaService.rows_of_contact contactId (addresses db) in
      mkOutcome (inr (AddressService.toAddressResponse <$> rows)) db
        (guard :: CallAddressFindMany contactId
           :: ((λ a, CallToAddressResponse (Address.id a)) <$> rows))
    else mkOutcome (inl (HttpException "Contact is not found" 404)) db [guard].
Proof.
  unfold AddressService.list. run_service. cbv zeta.
  case_bool_decide as Ho; unfold owned_by in Ho.
  - rewrite Ho. cbv beta iota. rewrite bool_decide_eq_true_2 by done.
    rewrite mapped_all_run. done.
  - destruct (contacts db !! contactId) as [owner|] eqn:E; cbv beta iota; [|done].
    rewrite bool_decide_eq_false_2 by congruence. done.
Qed.

Lemma steps_mapped (rows : list Address.t) :
  steps ((λ a, CallToAddressResponse (Address.id a)) <$> rows)
  = replicate (length rows) StepMap.
Proof. induction rows as [|a rows IH]; [done|]. cbn. by f_equal. Qed.

Lemma elem_of_rows_of_contact (contactId : Z) (tbl : gmap Z AddressColumns)
    (a : Address.t) :
  a ∈ PrismaService.rows_of_contact contactId tbl
  ↔ ∃ k row, tbl !! k = Some row ∧ col_contact_id row = contactId
             ∧ a = address_record k row.
Proof.
  unfold PrismaService.rows_of_contact. rewrite list_elem_of_fmap. split.
  - intros ([k row] & -> & [Hc Hin]%list_elem_of_filter).
    apply elem_of_map_to_list in Hin. by exists k, row.
  - intros (k & row & Hl & Hc & ->). exists (k, row). split; [done|].
    apply list_elem_of_filter. split; [done|]. by apply elem_of_map_to_list.
Qed.

Section Update.
Context {limits : ValidationLimits}.

Lemma update_succeeded_inv (db : Database) (user : User.t)
    (r : UpdateAddressRequest.t) :
  succeeded (AddressService.update user r db) = true →
  passes AddressValidation.UPDATE r
  ∧ owned_by db (User.username user) (UpdateAddressRequest.contact_id r)
  ∧ in_contact db (UpdateAddressRequest.id r)
               (UpdateAddressRequest.contact_id r) = true.
Proof.
  unfold passes, owned_by, in_contact. intros Hs.
  service_cases; done.
Qed.

Lemma update_succeeds (db : Database) (user : User.t)
    (r : UpdateAddressRequest.t) :
  passes AddressValidation.UPDATE r →
  owned_by db (User.username user) (UpdateAddressRequest.contact_id r) →
  in_contact db (UpdateAddressRequest.id r)
             (UpdateAddressRequest.contact_id r) = true →
  let o := AddressService.update user r db in
  result o = inr (updated_response r)
  ∧ store o = PrismaService.set_addresses
                (<[UpdateAddressRequest.id r := updated_row r]> (addresses db)) db.
Proof.
  intros Hp Ho Hin. cbv zeta.
  pose proof (UPDATE_passes_inv r Hp) as Hv.
  unfold passes, owned_by, in_contact, update_texts, updated_row,
    updated_response in *.
  cbn in Hv. repeat (apply andb_prop in Hv as [? Hv]).
  service_cases; simplify_map_eq; try done.
  rewrite !assign_populated by done.
  by rewrite insert_delete_eq.
Qed.

End Update.

(** The invariant of the key sequence holds of the empty store and every
    method keeps it. *)
Lemma seq_fresh_initial (cs : gmap Z string) : seq_fresh (mkDatabase cs ∅ 1).
Proof. intros k c. cbn. by rewrite lookup_empty. Qed.

Lemma service_preserves_seq_fresh {limits : ValidationLimits}
    (db : Database) (user : User.t) :
  seq_fresh db →
  (∀ r, seq_fresh (store (AddressService.create user r db)))
  ∧ (∀ r, seq_fresh (store (AddressService.get user r db)))
  ∧ (∀ r, seq_fresh (store (AddressService.update user r db)))
  ∧ (∀ r, seq_fresh (store (AddressService.remove user r db)))
  ∧ (∀ contactId, seq_fresh (store (AddressService.list user contactId db))).
Proof.
  intros Hf. split; [|split; [|split; [|split]]].
  - intros r. service_cases; try done.
    intros k c. cbn. destruct (decide (k = address_seq db)) as [->|Hne].
    + intros _. lia.
    + rewrite lookup_insert_ne by done. intros Hk%Hf. lia.
  - intros r. service_cases; done.
  - intros r. service_cases; try done.
    intros k c. cbn. destruct (decide (k = UpdateAddressRequest.id r)) as [->|Hne].
    + intros _. by eapply Hf.
    + rewrite lookup_insert_ne, lookup_delete_ne by done. apply Hf.
  - intros r. service_cases; try done.
    intros k c. cbn. intros [_ Hk]%lookup_delete_Some. by eapply Hf.
  - intros contactId. rewrite list_run. cbv zeta. by case_bool_decide.
Qed.

(** ** The cases of [test/address.spec.ts] *)

Example test_create_rejected_if_request_is_invalid :
  failed_with is_ValidationError
    (@AddressService.create sample_limits sample_user empty_create sample_db)
  = true.
Proof. reflexivity. Qed.

Example test_create_address :
  result (@AddressService.create sample_limits sample_user sample_create sample_db)
  = inr (AddressResponse.mk 7 (Some "street test") (Some "city test")
           (Some "province test") (Some "country test") (Some "1111")).
Proof. reflexivity. Qed.

Example test_get_rejected_if_contact_is_not_found :
  failed_with is_NotFoundError
    (@AddressService.get sample_limits sample_user
       (GetAddressRequest.mk (1 + 2) 5) sample_db)
  = true.
Proof. reflexivity. Qed.

Example test_get_rejected_if_address_is_not_found :
  failed_with is_NotFoundError
    (@AddressService.get sample_limits sample_user
       (GetAddressRequest.mk 1 (5 + 1)) sample_db)
  = true.
Proof. reflexivity. Qed.

Example test_get_address :
  result (@AddressService.get sample_limits sample_user
            (GetAddressRequest.mk 1 5) sample_db)
  = inr (AddressResponse.mk 5 (Some "street test") (Some "city test")
           (Some "province test") (Some "country test") (Some "1111")).
Proof. reflexivity. Qed.

Example test_update_rejected_if_request_is_invalid :
  failed_with is_ValidationError
    (@AddressService.update sample_limits sample_user empty_update sample_db)
  = true.
Proof. reflexivity. Qed.

Example test_update_address :
  result (@AddressService.update sample_limits sample_user sample_update sample_db)
  = inr (AddressResponse.mk 5 (Some "street updated") (Some "city updated")
           (Some "province updated") (Some "country updated") (Some "2222")).
Proof. reflexivity. Qed.

(** ** Properties of the service *)

Section AddressScoping.
Context {limits : ValidationLimits}.

(** C1 (amended): for every get, update or remove request that passes its
    schema, whose contact_id names a contact owned by the caller and whose
    address id does not identify an address row having that contact_id —
    whether no row has that id or the row is under another contact — the
    operation fails with the NotFoundError "Address is not found" and the
    store is as it was. *)
Theorem address_outside_contact_is_not_found (db : Database) (user : User.t) :
  (∀ r,
     passes AddressValidation.GET r →
     owned_by db (User.username user) (GetAddressRequest.contact_id r) →
     in_contact db (GetAddressRequest.address_id r)
                (GetAddressRequest.contact_id r) = false →
     address_not_found db (AddressService.get user r db))
  ∧ (∀ r,
     passes AddressValidation.UPDATE r →
     owned_by db (User.username user) (UpdateAddressRequest.contact_id r) →
     in_contact db (UpdateAddressRequest.id r)
                (UpdateAddressRequest.contact_id r) = false →
     address_not_found db (AddressService.update user r db))
  ∧ (∀ r,
     passes AddressValidation.REMOVE r →
     owned_by db (User.username user) (RemoveAddressRequest.contact_id r) →
     in_contact db (RemoveAddressRequest.address_id r)
                (RemoveAddressRequest.contact_id r) = false →
     address_not_found db (AddressService.remove user r db)).
Proof.
  unfold passes, owned_by, in_contact, address_not_found.
  repeat split; service_cases; done.
Qed.

End AddressScoping.

(** Address 6 exists, under contact 2; the caller owns contact 1. *)
Lemma address_outside_contact_is_not_found_witness :
  let g := GetAddressRequest.mk 1 6 in
  let u := UpdateAddressRequest.mk 6 1 (Some "street updated")
             (Some "city updated") (Some "province updated")
             (Some "country updated") (Some "2222") in
  let d := RemoveAddressRequest.mk 1 6 in
  in_contact sample_db 6 2 = true
  ∧ address_not_found sample_db
      (@AddressService.get sample_limits sample_user g sample_db)
  ∧ address_not_found sample_db
      (@AddressService.update sample_limits sample_user u sample_db)
  ∧ address_not_found sample_db
      (@AddressService.remove sample_limits sample_user d sample_db).
Proof.
  intros g u d.
  destruct (@address_outside_contact_is_not_found sample_limits sample_db
              sample_user) as (Hg & Hu & Hd).
  split; [evaluated|]. split; [|split].
  - apply Hg; evaluated.
  - apply Hu; evaluated.
  - apply Hd; evaluated.
Defined.

(** C1, as stated, fails: an update whose street is empty, on an owned
    contact and an address id under another contact, is stopped by the
    validation and fails with a ValidationError, not a NotFoundError. *)
Lemma update_with_empty_street_is_not_NotFoundError :
  let r := UpdateAddressRequest.mk 6 1 (Some "") (Some "city updated")
             (Some "province updated") (Some "country updated") (Some "2222") in
  let o := @AddressService.update sample_limits sample_user r sample_db in
  owned_by sample_db (User.username sample_user) (UpdateAddressRequest.contact_id r)
  ∧ in_contact sample_db (UpdateAddressRequest.id r)
               (UpdateAddressRequest.contact_id r) = false
  ∧ failed_with is_NotFoundError o = false
  ∧ result o = inl (ZodError ["street"]).
Proof. vm_compute. done. Qed.

Section EmptyText.
Context {limits : ValidationLimits}.

(** C2: a create or update request in which one of street, city, province,
    country, postal_code is the empty string fails with a ValidationError,
    and the store is as it was. *)
Theorem empty_text_is_rejected (db : Database) (user : User.t) :
  (∀ r, Some ""%string ∈ create_texts r →
     let o := AddressService.create user r db in
     failed_with is_ValidationError o = true ∧ store o = db)
  ∧ (∀ r, Some ""%string ∈ update_texts r →
     let o := AddressService.update user r db in
     failed_with is_ValidationError o = true ∧ store o = db).
Proof.
  split; intros r Hin.
  - apply CREATE_rejects_empty in Hin. unfold passes in Hin.
    service_cases; done.
  - apply UPDATE_rejects_empty in Hin. unfold passes in Hin.
    service_cases; done.
Qed.

End EmptyText.

Lemma empty_text_is_rejected_witness :
  (failed_with is_ValidationError
     (@AddressService.create sample_limits sample_user empty_create sample_db) = true
   ∧ store (@AddressService.create sample_limits sample_user empty_create sample_db)
     = sample_db)
  ∧ (failed_with is_ValidationError
       (@AddressService.update sample_limits sample_user empty_update sample_db) = true
     ∧ store (@AddressService.update sample_limits sample_user empty_update sample_db)
       = sample_db).
Proof.
  destruct (@empty_text_is_rejected sample_limits sample_db sample_user)
    as [Hc Hu].
  split; [apply Hc | apply Hu]; evaluated.
Defined.

Section Rejection.
Context {limits : ValidationLimits}.

(** C3: whenever create, get, update, remove or list fails with a
    ValidationError or a NotFoundError, the store is exactly as it was
    before the operation, and no writing store operation was called. *)
Theorem rejection_leaves_store_untouched (db : Database) (user : User.t) :
  (∀ r, let o := AddressService.create user r db in
        rejected o = true → untouched db o)
  ∧ (∀ r, let o := AddressService.get user r db in
        rejected o = true → untouched db o)
  ∧ (∀ r, let o := AddressService.update user r db in
        rejected o = true → untouched db o)
  ∧ (∀ r, let o := AddressService.remove user r db in
        rejected o = true → untouched db o)
  ∧ (∀ contactId, let o := AddressService.list user contactId db in
        rejected o = true → untouched db o).
Proof.
  unfold rejected, untouched.
  split; [|split; [|split; [|split]]].
  1-4: intros r; cbv zeta; intros Hr; service_cases; by repeat constructor.
  intros contactId. cbv zeta. rewrite list_run. cbv zeta.
  case_bool_decide; intros Hr; simplify_eq/=; by repeat constructor.
Qed.

End Rejection.

Lemma rejection_leaves_store_untouched_witness :
  untouched sample_db
    (@AddressService.create sample_limits sample_user empty_create sample_db)
  ∧ untouched sample_db
      (@AddressService.get sample_limits sample_user
         (GetAddressRequest.mk 1 6) sample_db)
  ∧ untouched sample_db
      (@AddressService.update sample_limits sample_user empty_update sample_db)
  ∧ untouched sample_db
      (@AddressService.remove sample_limits sample_user
         (RemoveAddressRequest.mk 2 6) sample_db)
  ∧ untouched sample_db (AddressService.list sample_user 2 sample_db).
Proof.
  destruct (@rejection_leaves_store_untouched sample_limits sample_db
              sample_user) as (Hc & Hg & Hu & Hd & Hl).
  split; [|split; [|split; [|split]]].
  - apply Hc; evaluated.
  - apply Hg; evaluated.
  - apply Hu; evaluated.
  - apply Hd; evaluated.
  - apply Hl; evaluated.
Defined.

Section Create.
Context {limits : ValidationLimits}.

(** C4 (amended): for every create request whose five textual fields are
    all non-empty and length-bounded, whose contact_id passes the schema and
    names a contact owned by the caller, on a store whose key sequence is
    ahead of the keys in use, create adds exactly one new address row, linked
    to the given contact_id, and returns a response whose five fields equal
    the input values and whose id is the key the store assigned to that
    row. *)
Theorem create_adds_one_row (db : Database) (user : User.t)
    (r : CreateAddressRequest.t) :
  forallb populated (create_texts r) = true →
  number_rule (CreateAddressRequest.contact_id r) = true →
  owned_by db (User.username user) (CreateAddressRequest.contact_id r) →
  seq_fresh db →
  let o := AddressService.create user r db in
  let k := address_seq db in
  let row := mkColumns (CreateAddressRequest.contact_id r)
               (CreateAddressRequest.street r) (CreateAddressRequest.city r)
               (CreateAddressRequest.province r) (CreateAddressRequest.country r)
               (CreateAddressRequest.postal_code r) in
  result o = inr (AddressResponse.mk k
               (CreateAddressRequest.street r) (CreateAddressRequest.city r)
               (CreateAddressRequest.province r) (CreateAddressRequest.country r)
               (CreateAddressRequest.postal_code r))
  ∧ addresses db !! k = None
  ∧ store o = mkDatabase (contacts db) (<[k := row]> (addresses db)) (k + 1)
  ∧ size (addresses (store o)) = S (size (addresses db)).
Proof.
  intros Hv Hn Ho Hf. cbv zeta.
  pose proof (CREATE_passes r Hn Hv) as Hp.
  pose proof (seq_fresh_free db Hf) as Hk.
  unfold passes, owned_by in *.
  service_cases; try done.
  repeat split; try done. by apply map_size_insert_None.
Qed.

End Create.

Lemma create_adds_one_row_witness :
  let o := @AddressService.create sample_limits sample_user sample_create
             sample_db in
  result o = inr (AddressResponse.mk 7 (Some "street test") (Some "city test")
                    (Some "province test") (Some "country test") (Some "1111"))
  ∧ addresses sample_db !! 7 = None
  ∧ store o = mkDatabase (contacts sample_db)
                (<[7 := sample_row]> (addresses sample_db)) (7 + 1)
  ∧ size (addresses (store o)) = S (size (addresses sample_db)).
Proof.
  apply (@create_adds_one_row sample_limits sample_db sample_user sample_create);
    evaluated.
Defined.

(** C4, as stated, fails: a create whose five fields are populated but
    whose contact belongs to another user is stopped by the contact guard;
    it adds no row. *)
Lemma create_under_foreign_contact_adds_no_row :
  let r := CreateAddressRequest.mk 2 (Some "street test") (Some "city test")
             (Some "province test") (Some "country test") (Some "1111") in
  let o := @AddressService.create sample_limits sample_user r sample_db in
  forallb (@populated sample_limits) (create_texts r) = true
  ∧ result o = inl (HttpException "Contact is not found" 404)
  ∧ store o = sample_db.
Proof. vm_compute. done. Qed.

Section RemoveThenGet.
Context {limits : ValidationLimits}.

(** C5: after a remove of a contact_id/address_id pair succeeds, a get with
    the same contact_id and address_id, by any caller, fails with a
    NotFoundError. *)
Theorem get_after_remove_is_not_found (db : Database) (user user' : User.t)
    (r : RemoveAddressRequest.t) :
  let o := AddressService.remove user r db in
  succeeded o = true →
  let o' := AddressService.get user'
              (GetAddressRequest.mk (RemoveAddressRequest.contact_id r)
                                    (RemoveAddressRequest.address_id r))
              (store o) in
  failed_with is_NotFoundError o' = true ∧ store o' = store o.
Proof.
  cbv zeta. intros Hs.
  service_cases; simplify_map_eq; first [done | congruence].
Qed.

End RemoveThenGet.

Lemma get_after_remove_is_not_found_witness :
  let o := @AddressService.remove sample_limits sample_user
             (RemoveAddressRequest.mk 1 5) sample_db in
  let o' := @AddressService.get sample_limits sample_user
              (GetAddressRequest.mk 1 5) (store o) in
  succeeded o = true
  ∧ failed_with is_NotFoundError o' = true ∧ store o' = store o.
Proof.
  split; [evaluated|].
  apply (@get_after_remove_is_not_found sample_limits sample_db sample_user
           sample_user (RemoveAddressRequest.mk 1 5)).
  evaluated.
Defined.

Section UpdateProperties.
Context {limits : ValidationLimits}.

(** C6: for every successful update, the request carries all five textual
    fields (a payload that leaves one out does not succeed), the matched
    row holds the request's values in all five, and the response returned
    reflects those values. *)
Theorem update_overwrites_all_fields (db : Database) (user : User.t)
    (r : UpdateAddressRequest.t) :
  let o := AddressService.update user r db in
  succeeded o = true →
  forallb populated (update_texts r) = true
  ∧ addresses (store o) !! UpdateAddressRequest.id r = Some (updated_row r)
  ∧ result o = inr (updated_response r).
Proof.
  cbv zeta. intros (Hp & Ho & Hin)%update_succeeded_inv.
  destruct (update_succeeds db user r Hp Ho Hin) as [Hres Hst].
  split; [by apply UPDATE_passes_inv|]. split; [|done].
  rewrite Hst. cbn. by rewrite lookup_insert_eq.
Qed.

(** C7: on every state and every update request on which update succeeds,
    applying the same payload a second time succeeds, returns the same
    response and leaves the same stored values, for the target row and for
    the whole store. *)
Theorem update_is_idempotent (db : Database) (user : User.t)
    (r : UpdateAddressRequest.t) :
  let o1 := AddressService.update user r db in
  succeeded o1 = true →
  let o2 := AddressService.update user r (store o1) in
  succeeded o2 = true
  ∧ result o2 = result o1
  ∧ store o2 = store o1
  ∧ addresses (store o2) !! UpdateAddressRequest.id r
    = addresses (store o1) !! UpdateAddressRequest.id r.
Proof.
  cbv zeta. intros (Hp & Ho & Hin)%update_succeeded_inv.
  destruct (update_succeeds db user r Hp Ho Hin) as [Hres Hst].
  destruct (update_succeeds (store (AddressService.update user r db)) user r)
    as [Hres' Hst']; [done | by rewrite Hst | |].
  { rewrite Hst. unfold in_contact. cbn. rewrite lookup_insert_eq. cbn.
    by rewrite bool_decide_eq_true_2. }
  assert (store (AddressService.update user r
                   (store (AddressService.update user r db)))
          = store (AddressService.update user r db)) as Heq.
  { rewrite Hst', Hst. unfold PrismaService.set_addresses. cbn.
    by rewrite insert_insert_eq. }
  unfold succeeded. rewrite Hres', Hres, Heq. done.
Qed.

End UpdateProperties.

Lemma update_overwrites_all_fields_witness :
  let o := @AddressService.update sample_limits sample_user sample_update
             sample_db in
  succeeded o = true
  ∧ forallb (@populated sample_limits) (update_texts sample_update) = true
  ∧ addresses (store o) !! 5 = Some (updated_row sample_update)
  ∧ result o = inr (updated_response sample_update).
Proof.
  split; [evaluated|].
  apply (@update_overwrites_all_fields sample_limits sample_db sample_user
           sample_update).
  evaluated.
Defined.

Lemma update_is_idempotent_witness :
  let o1 := @AddressService.update sample_limits sample_user sample_update
              sample_db in
  let o2 := @AddressService.update sample_limits sample_user sample_update
              (store o1) in
  succeeded o1 = true
  ∧ succeeded o2 = true
  ∧ result o2 = result o1
  ∧ store o2 = store o1
  ∧ addresses (store o2) !! 5 = addresses (store o1) !! 5.
Proof.
  split; [evaluated|].
  apply (@update_is_idempotent sample_limits sample_db sample_user
           sample_update).
  evaluated.
Defined.

Section StepOrder.
Context {limits : ValidationLimits}.

(** C8 (amended): create, get, update and remove take their steps in one
    order: validate the request, then verify contact ownership, then (get,
    update, remove) verify the address within that contact, then (create,
    update, remove) perform the store operation, then map the record to the
    response; a failing run stops after a prefix of these steps.  List
    validates no request: it verifies contact ownership, reads the rows of
    the contact and maps each of them. *)
Theorem step_order (db : Database) (user : User.t) :
  (∀ r, let tr := steps (calls (AddressService.create user r db)) in
        validates_first tr = true
        ∧ tr `prefix_of` [StepValidate; StepContact; StepStore; StepMap]
        ∧ (succeeded (AddressService.create user r db) = true →
           tr = [StepValidate; StepContact; StepStore; StepMap]))
  ∧ (∀ r, let tr := steps (calls (AddressService.get user r db)) in
        validates_first tr = true
        ∧ tr `prefix_of` [StepValidate; StepContact; StepAddress; StepMap]
        ∧ (succeeded (AddressService.get user r db) = true →
           tr = [StepValidate; StepContact; StepAddress; StepMap]))
  ∧ (∀ r, let tr := steps (calls (AddressService.update user r db)) in
        validates_first tr = true
        ∧ tr `prefix_of` [StepValidate; StepContact; StepAddress; StepStore; StepMap]
        ∧ (succeeded (AddressService.update user r db) = true →
           tr = [StepValidate; StepContact; StepAddress; StepStore; StepMap]))
  ∧ (∀ r, let tr := steps (calls (AddressService.remove user r db)) in
        validates_first tr = true
        ∧ tr `prefix_of` [StepValidate; StepContact; StepAddress; StepStore; StepMap]
        ∧ (succeeded (AddressService.remove user r db) = true →
           tr = [StepValidate; StepContact; StepAddress; StepStore; StepMap]))
  ∧ (∀ contactId,
        let tr := steps (calls (AddressService.list user contactId db)) in
        let n := length (PrismaService.rows_of_contact contactId (addresses db)) in
        validates_first tr = false
        ∧ tr `prefix_of` ([StepContact; StepStore] ++ replicate n StepMap)
        ∧ (succeeded (AddressService.list user contactId db) = true →
           tr = [StepContact; StepStore] ++ replicate n StepMap)).
Proof.
  split; [|split; [|split; [|split]]]; cbv zeta.
  1-4: intros r; service_cases; cbn;
       (split; [done | split; [by eexists | done]]).
  intros contactId. rewrite list_run. cbv zeta.
  case_bool_decide; cbn; rewrite ?steps_mapped.
  - split; [done | split; [done | done]].
  - split; [done | split; [by eexists | done]].
Qed.

End StepOrder.

Lemma step_order_witness :
  steps (calls (@AddressService.create sample_limits sample_user sample_create
                  sample_db))
  = [StepValidate; StepContact; StepStore; StepMap]
  ∧ steps (calls (@AddressService.get sample_limits sample_user
                    (GetAddressRequest.mk 1 5) sample_db))
    = [StepValidate; StepContact; StepAddress; StepMap]
  ∧ steps (calls (@AddressService.update sample_limits sample_user
                    sample_update sample_db))
    = [StepValidate; StepContact; StepAddress; StepStore; StepMap]
  ∧ steps (calls (@AddressService.remove sample_limits sample_user
                    (RemoveAddressRequest.mk 1 5) sample_db))
    = [StepValidate; StepContact; StepAddress; StepStore; StepMap]
  ∧ steps (calls (AddressService.list sample_user 1 sample_db))
    = [StepContact; StepStore]
      ++ replicate (length (PrismaService.rows_of_contact 1 (addresses sample_db)))
           StepMap.
Proof.
  destruct (@step_order sample_limits sample_db sample_user)
    as (Hc & Hg & Hu & Hd & Hl).
  split; [|split; [|split; [|split]]].
  - apply Hc; evaluated.
  - apply Hg; evaluated.
  - apply Hu; evaluated.
  - apply Hd; evaluated.
  - apply Hl; evaluated.
Defined.

(** C8, as stated, fails: list takes no validation step; its first step is
    the contact guard. *)
Lemma list_skips_validation :
  let tr := steps (calls (AddressService.list sample_user 1 sample_db)) in
  tr = [StepContact; StepStore; StepMap]
  ∧ validates_first tr = false
  ∧ StepValidate ∉ tr.
Proof.
  vm_compute. split; [done|]. split; [done|].
  intros Hin. repeat (apply elem_of_cons in Hin as [Hin|Hin]; [done|]).
  by apply not_elem_of_nil in Hin.
Qed.

Section Projection.
Context {limits : ValidationLimits}.

(** C9: the response that any of the five operations returns for a stored
    address is exactly the projection {id, street, city, province, country,
    postal_code} of that address (the row at that id before a get or
    remove, after a create or update; for list, the rows of the contact);
    the projection does not depend on the row's contact_id. *)
Theorem response_is_projection (db : Database) (user : User.t) :
  (∀ r resp,
     let o := AddressService.create user r db in
     result o = inr resp →
     ∃ row, addresses (store o) !! AddressResponse.id resp = Some row
            ∧ resp = projection (AddressResponse.id resp) row)
  ∧ (∀ r resp,
     result (AddressService.get user r db) = inr resp →
     ∃ row, addresses db !! GetAddressRequest.address_id r = Some row
            ∧ resp = projection (GetAddressRequest.address_id r) row)
  ∧ (∀ r resp,
     let o := AddressService.update user r db in
     result o = inr resp →
     ∃ row, addresses (store o) !! UpdateAddressRequest.id r = Some row
            ∧ resp = projection (UpdateAddressRequest.id r) row)
  ∧ (∀ r resp,
     result (AddressService.remove user r db) = inr resp →
     ∃ row, addresses db !! RemoveAddressRequest.address_id r = Some row
            ∧ resp = projection (RemoveAddressRequest.address_id r) row)
  ∧ (∀ contactId resps,
     result (AddressService.list user contactId db) = inr resps →
     ∀ resp, resp ∈ resps
             ↔ ∃ k row, addresses db !! k = Some row
                        ∧ col_contact_id row = contactId
                        ∧ resp = projection k row)
  ∧ (∀ k contactId contactId' street city province country postal_code,
     projection k (mkColumns contactId street city province country postal_code)
     = projection k (mkColumns contactId' street city province country postal_code)).
Proof.
  unfold projection.
  split; [|split; [|split; [|split; [|split]]]]; [ | | | | |done].
  1-4: cbv zeta; intros r resp Hres; service_cases; simplify_map_eq; eauto.
  intros contactId resps Hres resp.
  rewrite list_run in Hres. cbv zeta in Hres.
  case_bool_decide; simplify_eq/=. split.
  - intros (a & -> & Ha)%list_elem_of_fmap.
    apply elem_of_rows_of_contact in Ha as (k & row & ? & ? & ->).
    by exists k, row.
  - intros (k & row & ? & ? & ->). apply list_elem_of_fmap.
    exists (address_record k row). split; [done|].
    apply elem_of_rows_of_contact. by exists k, row.
Qed.

End Projection.

Lemma response_is_projection_witness :
  ∃ row, addresses sample_db !! 5 = Some row
         ∧ AddressResponse.mk 5 (Some "street test") (Some "city test")
             (Some "province test") (Some "country test") (Some "1111")
           = projection 5 row.
Proof.
  destruct (@response_is_projection sample_limits sample_db sample_user)
    as (_ & Hg & _).
  apply (Hg (GetAddressRequest.mk 1 5)). evaluated.
Defined.

Section Remove.
Context {limits : ValidationLimits}.

(** C10: a successful remove deletes the row that has the request's address
    id, and that row's contact_id is the request's contact_id; whether it
    succeeds or fails, remove leaves every row of another contact, and every
    row other than the one at the request's address id, as it was. *)
Theorem remove_only_deletes_matched_row (db : Database) (user : User.t)
    (r : RemoveAddressRequest.t) :
  let o := AddressService.remove user r db in
  (succeeded o = true →
     ∃ row, addresses db !! RemoveAddressRequest.address_id r = Some row
            ∧ col_contact_id row = RemoveAddressRequest.contact_id r
            ∧ addresses (store o)
              = delete (RemoveAddressRequest.address_id r) (addresses db))
  ∧ (∀ k row, addresses db !! k = Some row →
              col_contact_id row ≠ RemoveAddressRequest.contact_id r →
              addresses (store o) !! k = Some row)
  ∧ (∀ k, k ≠ RemoveAddressRequest.address_id r →
          addresses (store o) !! k = addresses db !! k)
  ∧ contacts (store o) = contacts db.
Proof.
  cbv zeta. repeat split.
  - intros Hs. service_cases; try done. eauto.
  - intros k row Hk Hc. service_cases; try done. cbn.
    rewrite lookup_delete_ne; [done | congruence].
  - intros k Hk. service_cases; try done. cbn. by rewrite lookup_delete_ne.
  - service_cases; done.
Qed.

End Remove.

(** Removing address 5 of contact 1 leaves address 6 of contact 2. *)
Lemma remove_only_deletes_matched_row_witness :
  let o := @AddressService.remove sample_limits sample_user
             (RemoveAddressRequest.mk 1 5) sample_db in
  (∃ row, addresses sample_db !! 5 = Some row
          ∧ col_contact_id row = 1
          ∧ addresses (store o) = delete 5 (addresses sample_db))
  ∧ addresses (store o) !! 6 = addresses sample_db !! 6.
Proof.
  destruct (@remove_only_deletes_matched_row sample_limits sample_db
              sample_user (RemoveAddressRequest.mk 1 5)) as (Hs & _ & Hk & _).
  split.
  - apply Hs. evaluated.
  - apply Hk. cbn. lia.
Defined.

(** ** Further equations of the service *)

Section Inversions.
Context {limits : ValidationLimits}.

Lemma number_inv field n :
  AddressValidation.number field n = [] → number_rule n = true.
Proof. unfold AddressValidation.number. by destruct (number_rule n). Qed.

Lemma GET_passes_iff r :
  passes AddressValidation.GET r
  ↔ number_rule (GetAddressRequest.contact_id r) = true
    ∧ number_rule (GetAddressRequest.address_id r) = true.
Proof.
  unfold passes. cbn. split.
  - intros [H1 H2]%app_eq_nil. eauto using number_inv.
  - intros [H1 H2]. by rewrite !number_ok.
Qed.

Lemma REMOVE_passes_iff r :
  passes AddressValidation.REMOVE r
  ↔ number_rule (RemoveAddressRequest.contact_id r) = true
    ∧ number_rule (RemoveAddressRequest.address_id r) = true.
Proof.
  unfold passes. cbn. split.
  - intros [H1 H2]%app_eq_nil. eauto using number_inv.
  - intros [H1 H2]. by rewrite !number_ok.
Qed.

Lemma CREATE_passes_contact r :
  passes AddressValidation.CREATE r →
  number_rule (CreateAddressRequest.contact_id r) = true.
Proof. unfold passes. cbn. intros [H1 _]%app_eq_nil. eauto using number_inv. Qed.

Lemma UPDATE_passes_numbers r :
  passes AddressValidation.UPDATE r →
  number_rule (UpdateAddressRequest.id r) = true
  ∧ number_rule (UpdateAddressRequest.contact_id r) = true.
Proof.
  unfold passes. cbn. intros [H1 [H2 _]%app_eq_nil]%app_eq_nil.
  eauto using number_inv.
Qed.

Lemma create_result_inv (db : Database) (user : User.t)
    (r : CreateAddressRequest.t) (resp : AddressResponse.t) :
  let o := AddressService.create user r db in
  result o = inr resp →
  passes AddressValidation.CREATE r
  ∧ owned_by db (User.username user) (CreateAddressRequest.contact_id r)
  ∧ addresses db !! address_seq db = None
  ∧ resp = AddressResponse.mk (address_seq db)
             (CreateAddressRequest.street r) (CreateAddressRequest.city r)
             (CreateAddressRequest.province r) (CreateAddressRequest.country r)
             (CreateAddressRequest.postal_code r)
  ∧ store o = mkDatabase (contacts db)
                (<[address_seq db :=
                     mkColumns (CreateAddressRequest.contact_id r)
                       (CreateAddressRequest.street r) (CreateAddressRequest.city r)
                       (CreateAddressRequest.province r)
                       (CreateAddressRequest.country r)
                       (CreateAddressRequest.postal_code r)]> (addresses db))
                (address_seq db + 1).
Proof.
  unfold passes, owned_by. cbv zeta. intros Hres. service_cases; done.
Qed.

Lemma get_succeeds (db : Database) (user : User.t) (r : GetAddressRequest.t)
    (row : AddressColumns) :
  passes AddressValidation.GET r →
  owned_by db (User.username user) (GetAddressRequest.contact_id r) →
  addresses db !! GetAddressRequest.address_id r = Some row →
  col_contact_id row = GetAddressRequest.contact_id r →
  let o := AddressService.get user r db in
  result o = inr (projection (GetAddressRequest.address_id r) row)
  ∧ store o = db.
Proof.
  unfold passes, owned_by, projection. intros Hp Ho Hrow Hc. cbv zeta.
  service_cases; done.
Qed.

Lemma remove_result_inv (db : Database) (user : User.t)
    (r : RemoveAddressRequest.t) (resp : AddressResponse.t) :
  let o := AddressService.remove user r db in
  result o = inr resp →
  passes AddressValidation.REMOVE r
  ∧ owned_by db (User.username user) (RemoveAddressRequest.contact_id r)
  ∧ ∃ row, addresses db !! RemoveAddressRequest.address_id r = Some row
           ∧ col_contact_id row = RemoveAddressRequest.contact_id r
           ∧ resp = projection (RemoveAddressRequest.address_id r) row
           ∧ store o = PrismaService.set_addresses
                         (delete (RemoveAddressRequest.address_id r) (addresses db)) db.
Proof.
  unfold passes, owned_by, projection. cbv zeta. intros Hres.
  service_cases; try done. repeat split; try done. eauto.
Qed.

Lemma remove_succeeds (db : Database) (user : User.t)
    (r : RemoveAddressRequest.t) (row : AddressColumns) :
  passes AddressValidation.REMOVE r →
  owned_by db (User.username user) (RemoveAddressRequest.contact_id r) →
  addresses db !! RemoveAddressRequest.address_id r = Some row →
  col_contact_id row = RemoveAddressRequest.contact_id r →
  let o := AddressService.remove user r db in
  result o = inr (projection (RemoveAddressRequest.address_id r) row)
  ∧ store o = PrismaService.set_addresses
                (delete (RemoveAddressRequest.address_id r) (addresses db)) db.
Proof.
  unfold passes, owned_by, projection. intros Hp Ho Hrow Hc. cbv zeta.
  service_cases; done.
Qed.

End Inversions.

(** The rows of a contact when a row is inserted or deleted. *)
Lemma rows_of_contact_insert (contactId k : Z) (row : AddressColumns)
    (tbl : gmap Z AddressColumns) :
  tbl !! k = None →
  PrismaService.rows_of_contact contactId (<[k := row]> tbl)
  ≡ₚ (if bool_decide (col_contact_id row = contactId)
      then [address_record k row] else [])
     ++ PrismaService.rows_of_contact contactId tbl.
Proof.
  intros Hk. unfold PrismaService.rows_of_contact.
  rewrite (map_to_list_insert tbl k row Hk), filter_cons. cbn.
  case_bool_decide; by rewrite ?decide_True, ?decide_False by done.
Qed.

Lemma rows_of_contact_delete (contactId k : Z) (row : AddressColumns)
    (tbl : gmap Z AddressColumns) :
  tbl !! k = Some row →
  PrismaService.rows_of_contact contactId tbl
  ≡ₚ (if bool_decide (col_contact_id row = contactId)
      then [address_record k row] else [])
     ++ PrismaService.rows_of_contact contactId (delete k tbl).
Proof.
  intros Hk. unfold PrismaService.rows_of_contact.
  rewrite <- (map_to_list_delete tbl k row Hk) at 1. rewrite filter_cons. cbn.
  case_bool_decide; by rewrite ?decide_True, ?decide_False by done.
Qed.


Lemma list_result_inv (db : Database) (user : User.t) (contactId : Z)
    (resps : list AddressResponse.t) :
  result (AddressService.list user contactId db) = inr resps →
  owned_by db (User.username user) contactId
  ∧ resps = AddressService.toAddressResponse
              <$> PrismaService.rows_of_contact contactId (addresses db).
Proof.
  rewrite list_run. cbv zeta. case_bool_decide; [|done]. cbn.
  by intros [= <-].
Qed.

Lemma list_succeeds (db : Database) (user : User.t) (contactId : Z) :
  owned_by db (User.username user) contactId →
  result (AddressService.list user contactId db)
  = inr (AddressService.toAddressResponse
           <$> PrismaService.rows_of_contact contactId (addresses db)).
Proof. intros Ho. rewrite list_run. cbv zeta. by rewrite bool_decide_eq_true_2. Qed.

Section Calls.
Context {limits : ValidationLimits}.

Lemma service_call_keeps_contacts (db db' : Database) :
  service_call db db' → contacts db' = contacts db.
Proof.
  intros [user r|user r|user r|user r|user contactId].
  1-4: service_cases; done.
  rewrite list_run. cbv zeta. by case_bool_decide.
Qed.

Lemma service_call_keeps_referential (db db' : Database) :
  referential db → service_call db db' → referential db'.
Proof.
  intros Href [user r|user r|user r|user r|user contactId].
  - service_cases; try done.
    intros k row. cbn. destruct (decide (k = address_seq db)) as [->|Hne].
    + rewrite lookup_insert_eq. intros [= <-]. cbn. eauto.
    + rewrite lookup_insert_ne by done. apply Href.
  - service_cases; done.
  - service_cases; try done.
    intros k row. cbn.
    destruct (decide (k = UpdateAddressRequest.id r)) as [->|Hne].
    + rewrite lookup_insert_eq. intros [= <-]. cbn. eauto.
    + rewrite lookup_insert_ne, lookup_delete_ne by done. apply Href.
  - service_cases; try done.
    intros k row. cbn. intros [_ Hk]%lookup_delete_Some. by eapply Href.
  - rewrite list_run. cbv zeta. by case_bool_decide.
Qed.

Lemma service_call_keeps_seq_fresh (db db' : Database) :
  seq_fresh db → service_call db db' → seq_fresh db'.
Proof.
  intros Hf [user r|user r|user r|user r|user contactId];
    destruct (service_preserves_seq_fresh db user Hf) as (Hc & Hg & Hu & Hd & Hl);
    auto.
Qed.

Lemma service_call_seq_grows (db db' : Database) :
  service_call db db' → address_seq db ≤ address_seq db'.
Proof.
  intros [user r|user r|user r|user r|user contactId].
  1-4: service_cases; cbn; lia.
  rewrite list_run. cbv zeta. by case_bool_decide.
Qed.

End Calls.

(** ** Further properties of the service *)

Section Guards.
Context {limits : ValidationLimits}.

(** X1: get and list never change the store and never call a writing store
    operation, whether they return or throw. *)
Theorem get_and_list_are_read_only (db : Database) (user : User.t) :
  (∀ r, untouched db (AddressService.get user r db))
  ∧ (∀ contactId, untouched db (AddressService.list user contactId db)).
Proof.
  unfold untouched. split.
  - intros r. service_cases; by repeat constructor.
  - intros contactId. rewrite list_run. cbv zeta.
    case_bool_decide; cbn; (split; [done|]); repeat constructor.
    apply Forall_fmap. by apply Forall_true.
Qed.

(** X2: on a contact that the caller does not own, no operation succeeds:
    create, get, update and remove fail with a ValidationError or a
    NotFoundError, list fails with "Contact is not found", and the store is
    as it was. *)
Theorem foreign_contact_is_refused (db : Database) (user : User.t) :
  (∀ r, ¬ owned_by db (User.username user) (CreateAddressRequest.contact_id r) →
        let o := AddressService.create user r db in
        rejected o = true ∧ store o = db)
  ∧ (∀ r, ¬ owned_by db (User.username user) (GetAddressRequest.contact_id r) →
        let o := AddressService.get user r db in
        rejected o = true ∧ store o = db)
  ∧ (∀ r, ¬ owned_by db (User.username user) (UpdateAddressRequest.contact_id r) →
        let o := AddressService.update user r db in
        rejected o = true ∧ store o = db)
  ∧ (∀ r, ¬ owned_by db (User.username user) (RemoveAddressRequest.contact_id r) →
        let o := AddressService.remove user r db in
        rejected o = true ∧ store o = db)
  ∧ (∀ contactId, ¬ owned_by db (User.username user) contactId →
        let o := AddressService.list user contactId db in
        result o = inl (HttpException "Contact is not found" 404) ∧ store o = db).
Proof.
  unfold owned_by, rejected.
  split; [|split; [|split; [|split]]].
  1-4: intros r Hno; cbv zeta; service_cases; done.
  intros contactId Hno. cbv zeta. rewrite list_run. cbv zeta.
  by rewrite bool_decide_eq_false_2.
Qed.

(** X3: a create, get, update or remove request that does not pass its
    schema is rejected with the issues of that schema, before the contact
    guard or the store is called: validation is the only step taken. *)
Theorem invalid_request_reports_schema_issues (db : Database) (user : User.t) :
  (∀ r, ¬ passes AddressValidation.CREATE r →
        let o := AddressService.create user r db in
        result o = inl (ZodError (schema_issues AddressValidation.CREATE r))
        ∧ store o = db ∧ steps (calls o) = [StepValidate])
  ∧ (∀ r, ¬ passes AddressValidation.GET r →
        let o := AddressService.get user r db in
        result o = inl (ZodError (schema_issues AddressValidation.GET r))
        ∧ store o = db ∧ steps (calls o) = [StepValidate])
  ∧ (∀ r, ¬ passes AddressValidation.UPDATE r →
        let o := AddressService.update user r db in
        result o = inl (ZodError (schema_issues AddressValidation.UPDATE r))
        ∧ store o = db ∧ steps (calls o) = [StepValidate])
  ∧ (∀ r, ¬ passes AddressValidation.REMOVE r →
        let o := AddressService.remove user r db in
        result o = inl (ZodError (schema_issues AddressValidation.REMOVE r))
        ∧ store o = db ∧ steps (calls o) = [StepValidate]).
Proof.
  unfold passes.
  split; [|split; [|split]]; intros r Hno; cbv zeta; service_cases; done.
Qed.

(** X4: the guards make the store calls safe: get, update, remove and
    list either return or fail with a ValidationError or NotFoundError, never
    with an error of the store (the record to update or delete exists, since
    the address guard found it); so does create on a store whose key
    sequence is ahead of the keys in use. *)
Theorem guards_make_store_calls_safe (db : Database) (user : User.t) :
  (∀ r, seq_fresh db →
        let o := AddressService.create user r db in
        succeeded o || rejected o = true)
  ∧ (∀ r, let o := AddressService.get user r db in
        succeeded o || rejected o = true)
  ∧ (∀ r, let o := AddressService.update user r db in
        succeeded o || rejected o = true)
  ∧ (∀ r, let o := AddressService.remove user r db in
        succeeded o || rejected o = true)
  ∧ (∀ contactId, let o := AddressService.list user contactId db in
        succeeded o || rejected o = true).
Proof.
  unfold rejected.
  split; [|split; [|split; [|split]]].
  - intros r Hf. pose proof (seq_fresh_free db Hf) as Hk. cbv zeta.
    service_cases; done.
  - intros r. cbv zeta. service_cases; done.
  - intros r. cbv zeta. service_cases; simplify_map_eq; done.
  - intros r. cbv zeta. service_cases; simplify_map_eq; done.
  - intros contactId. cbv zeta. rewrite list_run. cbv zeta.
    by case_bool_decide.
Qed.

(** X5: get, update and remove succeed exactly when the request passes its
    schema, the caller owns the contact and an address row has both the
    address id and the contact id; list succeeds exactly when the caller
    owns the contact. *)
Theorem success_characterised (db : Database) (user : User.t) :
  (∀ r, succeeded (AddressService.get user r db) = true
        ↔ passes AddressValidation.GET r
          ∧ owned_by db (User.username user) (GetAddressRequest.contact_id r)
          ∧ in_contact db (GetAddressRequest.address_id r)
                       (GetAddressRequest.contact_id r) = true)
  ∧ (∀ r, succeeded (AddressService.update user r db) = true
        ↔ passes AddressValidation.UPDATE r
          ∧ owned_by db (User.username user) (UpdateAddressRequest.contact_id r)
          ∧ in_contact db (UpdateAddressRequest.id r)
                       (UpdateAddressRequest.contact_id r) = true)
  ∧ (∀ r, succeeded (AddressService.remove user r db) = true
        ↔ passes AddressValidation.REMOVE r
          ∧ owned_by db (User.username user) (RemoveAddressRequest.contact_id r)
          ∧ in_contact db (RemoveAddressRequest.address_id r)
                       (RemoveAddressRequest.contact_id r) = true)
  ∧ (∀ contactId, succeeded (AddressService.list user contactId db) = true
        ↔ owned_by db (User.username user) contactId).
Proof.
  unfold passes, owned_by, in_contact.
  split; [|split; [|split]].
  1-3: intros r; split; [intros Hs | intros (Hp & Ho & Hin)];
       service_cases; simplify_map_eq; done.
  intros contactId. rewrite list_run. cbv zeta. unfold owned_by.
  case_bool_decide; cbn; split; done.
Qed.

End Guards.

Lemma foreign_contact_is_refused_witness :
  let c := CreateAddressRequest.mk 2 (Some "street test") (Some "city test")
             (Some "province test") (Some "country test") (Some "1111") in
  (rejected (@AddressService.create sample_limits sample_user c sample_db) = true
   ∧ store (@AddressService.create sample_limits sample_user c sample_db)
     = sample_db)
  ∧ (result (AddressService.list sample_user 2 sample_db)
     = inl (HttpException "Contact is not found" 404)
     ∧ store (AddressService.list sample_user 2 sample_db) = sample_db).
Proof.
  intros c.
  destruct (@foreign_contact_is_refused sample_limits sample_db sample_user)
    as (Hc & _ & _ & _ & Hl).
  split; [apply Hc | apply Hl]; refuted.
Defined.

Lemma invalid_request_reports_schema_issues_witness :
  let o := @AddressService.update sample_limits sample_user empty_update
             sample_db in
  result o = inl (ZodError (schema_issues
                              (@AddressValidation.UPDATE sample_limits)
                              empty_update))
  ∧ store o = sample_db ∧ steps (calls o) = [StepValidate].
Proof.
  destruct (@invalid_request_reports_schema_issues sample_limits sample_db
              sample_user) as (_ & _ & Hu & _).
  apply Hu. refuted.
Defined.

Lemma guards_make_store_calls_safe_witness :
  let o := @AddressService.create sample_limits sample_user sample_create
             sample_db in
  succeeded o || rejected o = true.
Proof.
  destruct (@guards_make_store_calls_safe sample_limits sample_db sample_user)
    as (Hc & _).
  apply Hc. evaluated.
Defined.

Lemma success_characterised_witness :
  succeeded (@AddressService.get sample_limits sample_user
               (GetAddressRequest.mk 1 5) sample_db) = true
  ∧ succeeded (AddressService.list sample_user 1 sample_db) = true.
Proof.
  destruct (@success_characterised sample_limits sample_db sample_user)
    as (Hg & _ & _ & Hl).
  split.
  - apply Hg. repeat split; evaluated.
  - apply Hl. evaluated.
Defined.

Section Compositions.
Context {limits : ValidationLimits}.

(** X6: after a create returns a response, a get by the same caller with
    the request's contact_id and the response's id (an id the schema
    accepts) returns that same response and changes nothing. *)
Theorem get_after_create (db : Database) (user : User.t)
    (r : CreateAddressRequest.t) (resp : AddressResponse.t) :
  let o := AddressService.create user r db in
  result o = inr resp →
  number_rule (AddressResponse.id resp) = true →
  let o' := AddressService.get user
              (GetAddressRequest.mk (CreateAddressRequest.contact_id r)
                                    (AddressResponse.id resp))
              (store o) in
  result o' = inr resp ∧ store o' = store o.
Proof.
  cbv zeta. intros Hres Hid.
  destruct (create_result_inv db user r resp Hres) as (Hp & Ho & Hk & -> & Hst).
  rewrite Hst. cbn in Hid.
  set (row := mkColumns (CreateAddressRequest.contact_id r)
                (CreateAddressRequest.street r) (CreateAddressRequest.city r)
                (CreateAddressRequest.province r) (CreateAddressRequest.country r)
                (CreateAddressRequest.postal_code r)).
  apply (get_succeeds _ user
           (GetAddressRequest.mk (CreateAddressRequest.contact_id r)
                                 (address_seq db)) row); cbn.
  - apply GET_passes_iff. eauto using CREATE_passes_contact.
  - done.
  - apply lookup_insert_eq.
  - done.
Qed.

(** X7: after a successful update, a get by the same caller of the same
    contact_id and address id returns the response that the update
    returned. *)
Theorem get_after_update (db : Database) (user : User.t)
    (r : UpdateAddressRequest.t) :
  let o := AddressService.update user r db in
  succeeded o = true →
  let o' := AddressService.get user
              (GetAddressRequest.mk (UpdateAddressRequest.contact_id r)
                                    (UpdateAddressRequest.id r))
              (store o) in
  result o' = result o ∧ store o' = store o.
Proof.
  cbv zeta. intros (Hp & Ho & Hin)%update_succeeded_inv.
  destruct (update_succeeds db user r Hp Ho Hin) as [Hres Hst].
  rewrite Hres, Hst.
  apply (get_succeeds _ user
           (GetAddressRequest.mk (UpdateAddressRequest.contact_id r)
                                 (UpdateAddressRequest.id r)) (updated_row r)); cbn.
  - apply GET_passes_iff. cbn. by destruct (UPDATE_passes_numbers r Hp).
  - done.
  - apply lookup_insert_eq.
  - done.
Qed.

(** X8: on every store, remove returns exactly what get returns for the
    same caller, contact_id and address_id: the same response (the values of
    the row before the delete) or the same error. *)
Theorem remove_returns_what_get_returns (db : Database) (user : User.t)
    (contactId address_id : Z) :
  result (AddressService.remove user
            (RemoveAddressRequest.mk contactId address_id) db)
  = result (AddressService.get user
              (GetAddressRequest.mk contactId address_id) db).
Proof.
  service_cases; simplify_map_eq; first [done | congruence].
Qed.

(** X9: after a successful remove, the same remove again fails with the
    NotFoundError "Address is not found" and changes nothing. *)
Theorem remove_twice (db : Database) (user : User.t)
    (r : RemoveAddressRequest.t) :
  let o := AddressService.remove user r db in
  succeeded o = true →
  address_not_found (store o) (AddressService.remove user r (store o)).
Proof.
  cbv zeta. unfold address_not_found. intros Hs.
  service_cases; simplify_map_eq; first [done | congruence].
Qed.

(** X10: update changes at most the row at the request's id: every other
    row is as it was, no row is added or deleted, the row keeps its
    contact_id (the request's contact_id, written with the data, is the one
    it was found under), and the contacts and the key sequence are as they
    were. *)
Theorem update_changes_one_row (db : Database) (user : User.t)
    (r : UpdateAddressRequest.t) :
  let o := AddressService.update user r db in
  (∀ k, k ≠ UpdateAddressRequest.id r →
        addresses (store o) !! k = addresses db !! k)
  ∧ dom (addresses (store o)) = dom (addresses db)
  ∧ col_contact_id <$> (addresses (store o) !! UpdateAddressRequest.id r)
    = col_contact_id <$> (addresses db !! UpdateAddressRequest.id r)
  ∧ contacts (store o) = contacts db
  ∧ address_seq (store o) = address_seq db.
Proof.
  cbv zeta.
  destruct (succeeded (AddressService.update user r db)) eqn:Hs.
  - apply update_succeeded_inv in Hs as (Hp & Ho & Hin).
    destruct (update_succeeds db user r Hp Ho Hin) as [_ ->].
    unfold in_contact in Hin. cbn.
    destruct (addresses db !! UpdateAddressRequest.id r) as [row|] eqn:Hrow;
      [|done].
    decided. repeat split.
    + intros k Hk. by rewrite lookup_insert_ne.
    + rewrite dom_insert_L. apply elem_of_dom_2 in Hrow.
      apply subseteq_union_1_L. by apply singleton_subseteq_l.
    + rewrite lookup_insert_eq. cbn. by rewrite Hin.
  - assert (store (AddressService.update user r db) = db) as ->; [|done].
    service_cases; simplify_map_eq; done.
Qed.

(** X11: create never changes or deletes an existing row nor a contact;
    when it returns, the response's id was not in use, the table has that
    one key more, and the new row is linked to the request's contact_id. *)
Theorem create_keeps_existing_rows (db : Database) (user : User.t)
    (r : CreateAddressRequest.t) :
  let o := AddressService.create user r db in
  (∀ k row, addresses db !! k = Some row →
            addresses (store o) !! k = Some row)
  ∧ contacts (store o) = contacts db
  ∧ (∀ resp, result o = inr resp →
       (AddressResponse.id resp ∉ dom (addresses db))
       ∧ dom (addresses (store o)) = {[AddressResponse.id resp]} ∪ dom (addresses db)
       ∧ col_contact_id <$> (addresses (store o) !! AddressResponse.id resp)
         = Some (CreateAddressRequest.contact_id r)).
Proof.
  cbv zeta. split; [|split].
  - intros k row Hk. service_cases; try done. cbn.
    rewrite lookup_insert_ne; [done | congruence].
  - service_cases; done.
  - intros resp Hres.
    destruct (create_result_inv db user r resp Hres) as (_ & _ & Hk & -> & ->).
    cbn. split; [by apply not_elem_of_dom|]. split; [by rewrite dom_insert_L|].
    by rewrite lookup_insert_eq.
Qed.

(** X12: a remove of the address that a create has just returned (an id
    the schema accepts) returns the response the create returned and leaves
    the address table and the contacts as they were before the create. *)
Theorem remove_undoes_create (db : Database) (user : User.t)
    (r : CreateAddressRequest.t) (resp : AddressResponse.t) :
  let o := AddressService.create user r db in
  result o = inr resp →
  number_rule (AddressResponse.id resp) = true →
  let o' := AddressService.remove user
              (RemoveAddressRequest.mk (CreateAddressRequest.contact_id r)
                                       (AddressResponse.id resp))
              (store o) in
  result o' = inr resp
  ∧ addresses (store o') = addresses db
  ∧ contacts (store o') = contacts db.
Proof.
  cbv zeta. intros Hres Hid.
  destruct (create_result_inv db user r resp Hres) as (Hp & Ho & Hk & -> & Hst).
  rewrite Hst. cbn in Hid. cbn [AddressResponse.id].
  set (row := mkColumns (CreateAddressRequest.contact_id r)
                (CreateAddressRequest.street r) (CreateAddressRequest.city r)
                (CreateAddressRequest.province r) (CreateAddressRequest.country r)
                (CreateAddressRequest.postal_code r)).
  destruct (remove_succeeds
              (mkDatabase (contacts db) (<[address_seq db := row]> (addresses db))
                          (address_seq db + 1))
              user (RemoveAddressRequest.mk (CreateAddressRequest.contact_id r)
                                            (address_seq db)) row)
    as [-> ->]; cbn.
  - apply REMOVE_passes_iff. eauto using CREATE_passes_contact.
  - done.
  - apply lookup_insert_eq.
  - done.
  - split; [done|]. split; [|done]. by rewrite delete_insert_id.
Qed.

(** X13: after a successful remove, an update that targets the removed
    address id, by any caller and with any payload, is rejected with a
    ValidationError or NotFoundError; it changes nothing and does not bring
    the row back. *)
Theorem update_after_remove_is_refused (db : Database) (user user' : User.t)
    (r : RemoveAddressRequest.t) (r' : UpdateAddressRequest.t) :
  let o := AddressService.remove user r db in
  succeeded o = true →
  UpdateAddressRequest.id r' = RemoveAddressRequest.address_id r →
  let o' := AddressService.update user' r' (store o) in
  rejected o' = true
  ∧ store o' = store o
  ∧ addresses (store o') !! RemoveAddressRequest.address_id r = None.
Proof.
  cbv zeta. unfold rejected. intros Hs Hid.
  destruct r' as [id' c' s1 s2 s3 s4 s5]. cbn in Hid. subst id'.
  service_cases; simplify_map_eq; first [done | congruence].
Qed.

(** X14: two updates that succeed on the same store and target different
    address ids commute: either order leaves the same store, and each
    returns the response it returns on its own. *)
Theorem updates_of_distinct_addresses_commute (db : Database)
    (user1 user2 : User.t) (r1 r2 : UpdateAddressRequest.t) :
  UpdateAddressRequest.id r1 ≠ UpdateAddressRequest.id r2 →
  succeeded (AddressService.update user1 r1 db) = true →
  succeeded (AddressService.update user2 r2 db) = true →
  let o12 := AddressService.update user2 r2
               (store (AddressService.update user1 r1 db)) in
  let o21 := AddressService.update user1 r1
               (store (AddressService.update user2 r2 db)) in
  store o12 = store o21
  ∧ result o12 = result (AddressService.update user2 r2 db)
  ∧ result o21 = result (AddressService.update user1 r1 db).
Proof.
  intros Hne (Hp1 & Ho1 & Hin1)%update_succeeded_inv
             (Hp2 & Ho2 & Hin2)%update_succeeded_inv. cbv zeta.
  destruct (update_succeeds db user1 r1 Hp1 Ho1 Hin1) as [Hr1 Hs1].
  destruct (update_succeeds db user2 r2 Hp2 Ho2 Hin2) as [Hr2 Hs2].
  rewrite Hs1, Hs2, Hr1, Hr2.
  destruct (update_succeeds
              (PrismaService.set_addresses
                 (<[UpdateAddressRequest.id r1 := updated_row r1]> (addresses db)) db)
              user2 r2) as [Hr12 Hs12]; [done | done | |].
  { unfold in_contact in *. cbn. by rewrite lookup_insert_ne. }
  destruct (update_succeeds
              (PrismaService.set_addresses
                 (<[UpdateAddressRequest.id r2 := updated_row r2]> (addresses db)) db)
              user1 r1) as [Hr21 Hs21]; [done | done | |].
  { unfold in_contact in *. cbn. by rewrite lookup_insert_ne. }
  rewrite Hr12, Hs12, Hr21, Hs21. split; [|done].
  unfold PrismaService.set_addresses. cbn. f_equal.
  by apply insert_insert_ne.
Qed.

End Compositions.

Lemma get_after_create_witness :
  let o := @AddressService.create sample_limits sample_user sample_create
             sample_db in
  let resp := AddressResponse.mk 7 (Some "street test") (Some "city test")
                (Some "province test") (Some "country test") (Some "1111") in
  let o' := @AddressService.get sample_limits sample_user
              (GetAddressRequest.mk 1 7) (store o) in
  result o = inr resp ∧ result o' = inr resp ∧ store o' = store o.
Proof.
  split; [evaluated|].
  apply (@get_after_create sample_limits sample_db sample_user sample_create
           (AddressResponse.mk 7 (Some "street test") (Some "city test")
              (Some "province test") (Some "country test") (Some "1111")));
    evaluated.
Defined.

Lemma get_after_update_witness :
  let o := @AddressService.update sample_limits sample_user sample_update
             sample_db in
  let o' := @AddressService.get sample_limits sample_user
              (GetAddressRequest.mk 1 5) (store o) in
  result o' = result o ∧ store o' = store o.
Proof.
  apply (@get_after_update sample_limits sample_db sample_user sample_update).
  evaluated.
Defined.

Lemma remove_twice_witness :
  let r := RemoveAddressRequest.mk 1 5 in
  let o := @AddressService.remove sample_limits sample_user r sample_db in
  address_not_found (store o)
    (@AddressService.remove sample_limits sample_user r (store o)).
Proof.
  apply (@remove_twice sample_limits sample_db sample_user
           (RemoveAddressRequest.mk 1 5)).
  evaluated.
Defined.

Lemma update_changes_one_row_witness :
  let o := @AddressService.update sample_limits sample_user sample_update
             sample_db in
  addresses (store o) !! 6 = addresses sample_db !! 6.
Proof.
  destruct (@update_changes_one_row sample_limits sample_db sample_user
              sample_update) as (Hk & _).
  apply Hk. cbn. lia.
Defined.

Lemma create_keeps_existing_rows_witness :
  let o := @AddressService.create sample_limits sample_user sample_create
             sample_db in
  addresses (store o) !! 5 = Some sample_row.
Proof.
  destruct (@create_keeps_existing_rows sample_limits sample_db sample_user
              sample_create) as (Hk & _).
  apply Hk. evaluated.
Defined.

Lemma remove_undoes_create_witness :
  let o := @AddressService.create sample_limits sample_user sample_create
             sample_db in
  let resp := AddressResponse.mk 7 (Some "street test") (Some "city test")
                (Some "province test") (Some "country test") (Some "1111") in
  let o' := @AddressService.remove sample_limits sample_user
              (RemoveAddressRequest.mk 1 7) (store o) in
  result o' = inr resp
  ∧ addresses (store o') = addresses sample_db
  ∧ contacts (store o') = contacts sample_db.
Proof.
  apply (@remove_undoes_create sample_limits sample_db sample_user
           sample_create
           (AddressResponse.mk 7 (Some "street test") (Some "city test")
              (Some "province test") (Some "country test") (Some "1111")));
    evaluated.
Defined.

Lemma update_after_remove_is_refused_witness :
  let o := @AddressService.remove sample_limits sample_user
             (RemoveAddressRequest.mk 1 5) sample_db in
  let o' := @AddressService.update sample_limits sample_user sample_update
              (store o) in
  rejected o' = true ∧ store o' = store o ∧ addresses (store o') !! 5 = None.
Proof.
  apply (@update_after_remove_is_refused sample_limits sample_db sample_user
           sample_user (RemoveAddressRequest.mk 1 5) sample_update);
    evaluated.
Defined.

(** The owner of contact 2 updates address 6 while "test" updates
    address 5. *)
Lemma updates_of_distinct_addresses_commute_witness :
  let other := User.mk "other" in
  let r2 := UpdateAddressRequest.mk 6 2 (Some "a") (Some "b") (Some "c")
              (Some "d") (Some "e") in
  let o12 := @AddressService.update sample_limits other r2
               (store (@AddressService.update sample_limits sample_user
                         sample_update sample_db)) in
  let o21 := @AddressService.update sample_limits sample_user sample_update
               (store (@AddressService.update sample_limits other r2
                         sample_db)) in
  store o12 = store o21
  ∧ result o12 = result (@AddressService.update sample_limits other r2 sample_db)
  ∧ result o21 = result (@AddressService.update sample_limits sample_user
                           sample_update sample_db).
Proof.
  apply (@updates_of_distinct_addresses_commute sample_limits sample_db
           sample_user (User.mk "other") sample_update
           (UpdateAddressRequest.mk 6 2 (Some "a") (Some "b") (Some "c")
              (Some "d") (Some "e"))).
  - cbn. lia.
  - evaluated.
  - evaluated.
Defined.

Section Lists.
Context {limits : ValidationLimits}.


(** X16: after a create returns a response, the list of a contact (for
    any caller who could list it before) is, up to order, the list before
    with that response added when the contact is the request's, and the
    list before otherwise. *)
Theorem list_after_create (db : Database) (user user' : User.t)
    (r : CreateAddressRequest.t) (resp : AddressResponse.t)
    (contactId : Z) (old : list AddressResponse.t) :
  let o := AddressService.create user r db in
  result o = inr resp →
  result (AddressService.list user' contactId db) = inr old →
  ∃ new, result (AddressService.list user' contactId (store o)) = inr new
         ∧ new ≡ₚ (if bool_decide (CreateAddressRequest.contact_id r = contactId)
                   then [resp] else []) ++ old.
Proof.
  cbv zeta. intros Hres [Ho' ->]%list_result_inv.
  destruct (create_result_inv db user r resp Hres) as (_ & _ & Hk & -> & Hst).
  rewrite Hst. eexists. split.
  - by apply list_succeeds.
  - cbn. rewrite rows_of_contact_insert by done. cbn.
    rewrite fmap_app. by case_bool_decide.
Qed.

(** X17: after an update returns a response, the list of the request's
    contact is, up to order, the list before with the address's previous
    response (the one get returned) replaced by the update's response; the
    list of any other contact is the list before, up to order. *)
Theorem list_after_update (db : Database) (user user' : User.t)
    (r : UpdateAddressRequest.t) (resp prev : AddressResponse.t)
    (contactId : Z) (old : list AddressResponse.t) :
  let o := AddressService.update user r db in
  result o = inr resp →
  result (AddressService.get user
            (GetAddressRequest.mk (UpdateAddressRequest.contact_id r)
                                  (UpdateAddressRequest.id r)) db) = inr prev →
  result (AddressService.list user' contactId db) = inr old →
  ∃ new rest,
    result (AddressService.list user' contactId (store o)) = inr new
    ∧ if bool_decide (UpdateAddressRequest.contact_id r = contactId)
      then old ≡ₚ prev :: rest ∧ new ≡ₚ resp :: rest
      else old ≡ₚ rest ∧ new ≡ₚ rest.
Proof.
  cbv zeta. intros Hres Hprev [Ho' ->]%list_result_inv.
  assert (succeeded (AddressService.update user r db) = true) as Hs
    by (unfold succeeded; by rewrite Hres).
  apply update_succeeded_inv in Hs as (Hp & Ho & Hin).
  destruct (update_succeeds db user r Hp Ho Hin) as [Hr Hst].
  rewrite Hr in Hres. injection Hres as <-.
  unfold in_contact in Hin.
  destruct (addresses db !! UpdateAddressRequest.id r) as [row|] eqn:Hrow;
    [|done].
  decided.
  assert (prev = projection (UpdateAddressRequest.id r) row) as ->.
  { destruct (get_succeeds db user
                (GetAddressRequest.mk (UpdateAddressRequest.contact_id r)
                                      (UpdateAddressRequest.id r)) row)
      as [Hg _]; cbn; try done.
    - apply GET_passes_iff. cbn. by destruct (UPDATE_passes_numbers r Hp).
    - cbn in Hg. congruence. }
  rewrite Hst.
  exists (AddressService.toAddressResponse
            <$> PrismaService.rows_of_contact contactId
                  (<[UpdateAddressRequest.id r := updated_row r]> (addresses db))),
         (AddressService.toAddressResponse
            <$> PrismaService.rows_of_contact contactId
                  (delete (UpdateAddressRequest.id r) (addresses db))).
  split; [by apply list_succeeds|].
  pose proof (rows_of_contact_delete contactId _ row (addresses db) Hrow) as Hold.
  pose proof (rows_of_contact_insert contactId (UpdateAddressRequest.id r)
                (updated_row r)
                (delete (UpdateAddressRequest.id r) (addresses db))
                (lookup_delete_eq _ _)) as Hnew.
  rewrite insert_delete_eq in Hnew. rewrite Hin in Hold. cbn in Hnew.
  apply (fmap_Permutation AddressService.toAddressResponse) in Hold, Hnew.
  rewrite fmap_app in Hold, Hnew. cbn.
  case_bool_decide; cbn in *; done.
Qed.

(** X18: after a remove returns a response, the list of the request's
    contact before the remove is, up to order, that response added to the
    list after it; the list of any other contact is unchanged up to
    order. *)
Theorem list_after_remove (db : Database) (user user' : User.t)
    (r : RemoveAddressRequest.t) (resp : AddressResponse.t)
    (contactId : Z) (old : list AddressResponse.t) :
  let o := AddressService.remove user r db in
  result o = inr resp →
  result (AddressService.list user' contactId db) = inr old →
  ∃ new, result (AddressService.list user' contactId (store o)) = inr new
         ∧ old ≡ₚ (if bool_decide (RemoveAddressRequest.contact_id r = contactId)
                   then [resp] else []) ++ new.
Proof.
  cbv zeta. intros Hres [Ho' ->]%list_result_inv.
  destruct (remove_result_inv db user r resp Hres)
    as (_ & _ & row & Hrow & Hc & -> & Hst).
  rewrite Hst. eexists. split.
  - by apply list_succeeds.
  - cbn. rewrite (rows_of_contact_delete _ _ row (addresses db) Hrow) at 1.
    rewrite fmap_app, Hc. by case_bool_decide.
Qed.

End Lists.


Lemma list_after_create_witness :
  let o := @AddressService.create sample_limits sample_user sample_create
             sample_db in
  let resp := AddressResponse.mk 7 (Some "street test") (Some "city test")
                (Some "province test") (Some "country test") (Some "1111") in
  let old := [AddressResponse.mk 5 (Some "street test") (Some "city test")
                (Some "province test") (Some "country test") (Some "1111")] in
  ∃ new, result (AddressService.list sample_user 1 (store o)) = inr new
         ∧ new ≡ₚ (if bool_decide (CreateAddressRequest.contact_id sample_create = 1)
                   then [resp] else []) ++ old.
Proof.
  apply (@list_after_create sample_limits sample_db sample_user sample_user
           sample_create); evaluated.
Defined.

Lemma list_after_update_witness :
  let o := @AddressService.update sample_limits sample_user sample_update
             sample_db in
  let prev := AddressResponse.mk 5 (Some "street test") (Some "city test")
                (Some "province test") (Some "country test") (Some "1111") in
  ∃ new rest,
    result (AddressService.list sample_user 1 (store o)) = inr new
    ∧ if bool_decide (UpdateAddressRequest.contact_id sample_update = 1)
      then [prev] ≡ₚ prev :: rest ∧ new ≡ₚ updated_response sample_update :: rest
      else [prev] ≡ₚ rest ∧ new ≡ₚ rest.
Proof.
  apply (@list_after_update sample_limits sample_db sample_user sample_user
           sample_update); evaluated.
Defined.

Lemma list_after_remove_witness :
  let r := RemoveAddressRequest.mk 1 5 in
  let o := @AddressService.remove sample_limits sample_user r sample_db in
  let resp := AddressResponse.mk 5 (Some "street test") (Some "city test")
                (Some "province test") (Some "country test") (Some "1111") in
  ∃ new, result (AddressService.list sample_user 1 (store o)) = inr new
         ∧ [resp] ≡ₚ (if bool_decide (RemoveAddressRequest.contact_id r = 1)
                      then [resp] else []) ++ new.
Proof.
  apply (@list_after_remove sample_limits sample_db sample_user sample_user
           (RemoveAddressRequest.mk 1 5)); evaluated.
Defined.

Section Sequences.
Context {limits : ValidationLimits}.

(** X19: along any sequence of calls of the five methods, by any users
    with any requests, from a store whose key sequence is ahead of the keys
    in use and whose address rows all name a contact: both facts still hold,
    the contacts are as they were and the key sequence has not gone back. *)
Theorem service_calls_keep_integrity (db db' : Database) :
  seq_fresh db →
  referential db →
  rtc service_call db db' →
  seq_fresh db' ∧ referential db' ∧ contacts db' = contacts db
  ∧ address_seq db ≤ address_seq db'.
Proof.
  intros Hf Href Hcalls. induction Hcalls as [db|db db1 db' Hcall _ IH].
  - done.
  - destruct IH as (Hf' & Href' & Hc & Hs).
    + by eapply service_call_keeps_seq_fresh.
    + by eapply service_call_keeps_referential.
    + repeat split; try done.
      * rewrite Hc. by apply service_call_keeps_contacts.
      * apply service_call_seq_grows in Hcall. lia.
Qed.

End Sequences.

Lemma service_calls_keep_integrity_witness :
  let db' := store (@AddressService.remove sample_limits sample_user
                      (RemoveAddressRequest.mk 1 5)
                      (store (@AddressService.create sample_limits sample_user
                                sample_create sample_db))) in
  seq_fresh db' ∧ referential db' ∧ contacts db' = contacts sample_db
  ∧ address_seq sample_db ≤ address_seq db'.
Proof.
  apply (@service_calls_keep_integrity sample_limits sample_db).
  - evaluated.
  - evaluated.
  - eapply rtc_l; [apply (call_create _ sample_user sample_create)|].
    apply rtc_once. apply (call_remove _ sample_user (RemoveAddressRequest.mk 1 5)).
Defined.
